(** * Custom ring generator (src/App.tsx): slot placement, band bevels,
      decals, gems and the diagnostic checks.

    JavaScript numbers are modelled by the real numbers of the Standard
    Library ([Math.PI] is [PI], [Math.cos]/[Math.sin] are [cos]/[sin],
    [Math.min]/[Math.max] are [Rmin]/[Rmax]); rounding is not modelled.
    Strings are [string]; arrays are lists; the three.js vector and
    quaternion operations called by the source are transcribed in
    [Module THREE]. *)

From Stdlib Require Import Reals Lra Lia List String Bool ZArith.
Import ListNotations.

Open Scope R_scope.

(** ** Utility: angle for slot index (front/top fixed) *)

(** [function angleForIndex(i, total = 12)]; every call site of the source
    passes [total] explicitly. *)
Definition angleForIndex (i total : R) : R :=
  let step := (PI * 2) / total in
  let start := PI / 2 in
  start - i * step.

(** Degrees, to read the angles of the specification. *)
Definition deg (d : R) : R := d * PI / 180.

(** Two angles are the same direction when they differ by whole turns. *)
Definition same_direction (a b : R) : Prop :=
  exists k : Z, a - b = IZR k * (2 * PI).

(** ** The three.js operations the source calls

    [Vector3] and [Quaternion] with the methods used by [DecalMarks] and
    [Gems], written as the library computes them. *)
Module THREE.

Record Vector3 := mkVector3 { x : R; y : R; z : R }.

Definition multiplyScalar (v : Vector3) (s : R) : Vector3 :=
  mkVector3 (x v * s) (y v * s) (z v * s).

Definition divideScalar (v : Vector3) (s : R) : Vector3 :=
  multiplyScalar v (1 / s).

Definition dot (a b : Vector3) : R :=
  x a * x b + y a * y b + z a * z b.

Definition length (v : Vector3) : R :=
  sqrt (x v * x v + y v * y v + z v * z v).

(** [this.divideScalar(this.length() || 1)] *)
Definition normalize (v : Vector3) : Vector3 :=
  divideScalar v (if Req_dec_T (length v) 0 then 1 else length v).

Definition toArray (v : Vector3) : list R := [x v; y v; z v].

Record Quaternion := mkQuaternion { qx : R; qy : R; qz : R; qw : R }.

Definition qlength (q : Quaternion) : R :=
  sqrt (qx q * qx q + qy q * qy q + qz q * qz q + qw q * qw q).

Definition qnormalize (q : Quaternion) : Quaternion :=
  let l := qlength q in
  if Req_dec_T l 0 then mkQuaternion 0 0 0 1
  else
    let l' := 1 / l in
    mkQuaternion (qx q * l') (qy q * l') (qz q * l') (qw q * l').

(** [Number.EPSILON], 2^-52. *)
Definition EPSILON : R := / 4503599627370496.

(** [new Quaternion().setFromUnitVectors(vFrom, vTo)] *)
Definition setFromUnitVectors (vFrom vTo : Vector3) : Quaternion :=
  let r := dot vFrom vTo + 1 in
  if Rlt_dec r EPSILON then
    (* vFrom and vTo point in opposite directions *)
    if Rgt_dec (Rabs (x vFrom)) (Rabs (z vFrom)) then
      qnormalize (mkQuaternion (- y vFrom) (x vFrom) 0 0)
    else
      qnormalize (mkQuaternion 0 (- z vFrom) (y vFrom) 0)
  else
    qnormalize
      (mkQuaternion (y vFrom * z vTo - z vFrom * y vTo)
                    (z vFrom * x vTo - x vFrom * z vTo)
                    (x vFrom * y vTo - y vFrom * x vTo)
                    r).

(** [v.applyQuaternion(q)]: the rotation a unit quaternion stands for. *)
Definition applyQuaternion (v : Vector3) (q : Quaternion) : Vector3 :=
  let tx := 2 * (qy q * z v - qz q * y v) in
  let ty := 2 * (qz q * x v - qx q * z v) in
  let tz := 2 * (qx q * y v - qy q * x v) in
  mkVector3 (x v + qw q * tx + qy q * tz - qz q * ty)
            (y v + qw q * ty + qz q * tx - qx q * tz)
            (z v + qw q * tz + qx q * ty - qy q * tx).

End THREE.

(** ** Extruded band (flat profile) *)

(** [absarc(x, y, radius, startAngle, endAngle, clockwise)] *)
Record Arc := mkArc {
  arc_x : R; arc_y : R; arc_radius : R;
  arc_start : R; arc_end : R; arc_clockwise : bool }.

Record Shape := mkShape { outline : Arc; holes : list Arc }.

Record ExtrudeOptions := mkExtrudeOptions {
  depth : R;
  bevelEnabled : bool;
  bevelSegments : nat;
  bevelThickness : R;
  bevelSize : R;
  curveSegments : nat }.

(** The extrusion with the two transforms applied to it afterwards. *)
Record ExtrudeGeometry := mkExtrudeGeometry {
  shape : Shape;
  options : ExtrudeOptions;
  translate : THREE.Vector3;
  rotateX : R }.

(** The callback of [useMemo] in [Band]. *)
Definition Band_geom (innerR bandWidth bandHeight : R) : ExtrudeGeometry :=
  let outerR := innerR + bandWidth in
  let shape := mkArc 0 0 outerR 0 (PI * 2) false in
  let hole := mkArc 0 0 innerR 0 (PI * 2) true in
  let bevelT := Rmin 0.35 (bandHeight * 0.22) in
  let bevelS := Rmin 0.6 (bandWidth * 0.12) in
  mkExtrudeGeometry
    (mkShape shape [hole])
    (mkExtrudeOptions bandHeight true 3 bevelT bevelS 128)
    (THREE.mkVector3 0 0 (- bandHeight / 2))
    (- PI / 2).

Record Mesh := mkMesh { geometry : ExtrudeGeometry; material_color : string }.

(** What a builder hands back: a mesh, a structured failure, or an
    exception that escapes it. *)
Inductive BuildError := InvalidGeometry.

Inductive JsError := TypeError.

Inductive Outcome (A : Type) :=
| Built (a : A)
| Failed (e : BuildError)
| Thrown (e : JsError).
Arguments Built {A} a.
Arguments Failed {A} e.
Arguments Thrown {A} e.

(** A contour of radius 0: all its points coincide. *)
Definition collapsed (a : Arc) : bool :=
  if Req_dec_T (arc_radius a) 0 then true else false.

(** When [new THREE.ExtrudeGeometry(shape, ...)] throws: its triangulator
    raises a TypeError on a hole that has collapsed to a point, which it
    reaches only if the outline has not collapsed too (it returns early on a
    collapsed outline). *)
Definition ExtrudeGeometry_throws (s : Shape) : bool :=
  negb (collapsed (outline s)) && existsb collapsed (holes s).

(** The [Band] component: the callback has no guard, no [throw] and no early
    return of its own; an exception of the constructor escapes it, and
    otherwise the mesh is rendered with whatever it computed. *)
Definition Band (innerR bandWidth bandHeight : R) (color : string)
  : Outcome Mesh :=
  let geom := Band_geom innerR bandWidth bandHeight in
  if ExtrudeGeometry_throws (shape geom) then Thrown TypeError
  else Built (mkMesh geom color).

(** ** Domain data *)

Record ZodiacEntry := mkZodiac {
  z_key : string; z_glyph : string; z_label : string }.

Definition ZODIAC : list ZodiacEntry := [
  mkZodiac "aries" "♈" "Aries";
  mkZodiac "taurus" "♉" "Taurus";
  mkZodiac "gemini" "♊" "Gemini";
  mkZodiac "cancer" "♋" "Cancer";
  mkZodiac "leo" "♌" "Leo";
  mkZodiac "virgo" "♍" "Virgo";
  mkZodiac "libra" "♎" "Libra";
  mkZodiac "scorpio" "♏" "Scorpio";
  mkZodiac "sagittarius" "♐" "Sagittarius";
  mkZodiac "capricorn" "♑" "Capricorn";
  mkZodiac "aquarius" "♒" "Aquarius";
  mkZodiac "pisces" "♓" "Pisces" ]%string.

Record StoneEntry := mkStone {
  st_key : string; st_label : string; st_hex : string; st_ior : option R }.

Definition diamond : StoneEntry :=
  mkStone "diamond" "Diamond" "#ffffff" (Some 2.4).

Definition STONES : list StoneEntry := [
  diamond;
  mkStone "ruby" "Ruby" "#E0115F" (Some 1.77);
  mkStone "sapphire" "Sapphire" "#0F52BA" (Some 1.77);
  mkStone "emerald" "Emerald" "#50C878" (Some 1.58);
  mkStone "amethyst" "Amethyst" "#9966CC" (Some 1.54);
  mkStone "topaz" "Topaz" "#FFB000" (Some 1.61);
  mkStone "aquamarine" "Aquamarine" "#7FFFD4" (Some 1.58);
  mkStone "garnet" "Garnet" "#9B111E" (Some 1.79);
  mkStone "peridot" "Peridot" "#B4C424" (Some 1.65);
  mkStone "turquoise" "Turquoise" "#30D5C8" (Some 1.61);
  mkStone "citrine" "Citrine" "#E4B700" (Some 1.55) ]%string.

(** ** Types *)

(** [Slot], tagged by [kind].  The text value is read through
    [(s as any).value ?? ""], so it may be missing. *)
Inductive Slot :=
| Zodiac (value : string)
| Stone (value : string)
| Text (value : option string).

(** An array of slots as the loops index it: [slots[i]] is [undefined] past
    the end, and a cell may itself hold no slot. *)
Definition SlotArray := list (option Slot).

Definition slot_at (slots : SlotArray) (i : nat) : option Slot :=
  match nth_error slots i with
  | Some cell => cell
  | None => None
  end.

(** A well-typed [Slot[]] seen as such an array. *)
Definition cells (slots : list Slot) : SlotArray := map Some slots.

Definition kind (s : Slot) : string :=
  match s with
  | Zodiac _ => "zodiac"
  | Stone _ => "stone"
  | Text _ => "text"
  end.

(** [(s as any).value] *)
Definition slot_value (s : Slot) : option string :=
  match s with
  | Zodiac v => Some v
  | Stone v => Some v
  | Text v => v
  end.

(** [key === value], where the value may be missing. *)
Definition key_is (key : string) (value : option string) : bool :=
  match value with
  | Some v => String.eqb key v
  | None => false
  end.

(** ** Canvas-generated textures for decals *)

(** What was drawn on the canvas the texture wraps (font family names are
    kept without their quotation marks). *)
Record CanvasTexture := mkCanvasTexture {
  canvas_size : R;
  fillStyle : string;
  textAlign : string;
  textBaseline : string;
  font_px : R;
  font_family : string;
  fillText_text : string;
  fillText_x : R;
  fillText_y : R;
  anisotropy : nat }.

Definition makeZodiacTexture (signKey : option string) (color : string)
  : CanvasTexture :=
  let size := 1024 in
  let glyph :=
    match find (fun z => key_is (z_key z) signKey) ZODIAC with
    | Some z => z_glyph z
    | None => "?"%string
    end in
  mkCanvasTexture size color "center" "middle" (size * 0.58)
    "Cormorant Garamond, ui-serif, Georgia, Times New Roman, serif"
    glyph (size / 2) (size / 2) 8.

Definition makeTextTexture (text : string) (color : string) : CanvasTexture :=
  let size := 1024 in
  mkCanvasTexture size color "center" "middle" (size * 0.45)
    "Inter, ui-sans-serif, -apple-system, Segoe UI, Arial"
    text (size / 2) (size / 2) 8.

(** ** The loop of both generators

    [for (let i = 0; i < n; i++) { ...; items.push(e) }], where the body either
    pushes one element or hits [continue]. *)
Definition for_push {A : Type} (n : nat) (body : nat -> option A) : list A :=
  fold_left
    (fun items i =>
       match body i with
       | Some e => items ++ [e]
       | None => items
       end)
    (seq 0 n) [].

(** ** Decal marks projected on the band (zodiac + text only) *)

(** One pushed [<mesh>]: the arguments of its [DecalGeometry] and its texture.
    The orientation is kept as the quaternion from which the source derives
    the Euler angles it passes on. *)
Record DecalPatch := mkDecalPatch {
  decal_key : nat;
  decal_target : Mesh;
  decal_position : THREE.Vector3;
  decal_normal : THREE.Vector3;
  decal_orientation : THREE.Quaternion;
  decal_size : THREE.Vector3;
  decal_map : CanvasTexture }.

Definition DecalMarks_body (mesh : Mesh) (innerR outerR size : R)
    (slots : SlotArray) (inside : bool) (markColor : string) (depth : R)
    (i : nat) : option DecalPatch :=
  match slot_at slots i with
  | None => None
  | Some s =>
    if String.eqb (kind s) "stone" then None (* stones handled as 3D meshes *)
    else
      let a := angleForIndex (INR i) 12 in
      let radius := if inside then innerR + 0.05 else outerR - 0.05 in
      let pos := THREE.mkVector3 (cos a * radius) 0 (sin a * radius) in
      let normal :=
        THREE.normalize
          (THREE.multiplyScalar (THREE.mkVector3 (cos a) 0 (sin a))
                                (if inside then -1 else 1)) in
      let quat := THREE.setFromUnitVectors (THREE.mkVector3 0 0 1) normal in
      let tex :=
        if String.eqb (kind s) "zodiac"
        then makeZodiacTexture (slot_value s) markColor
        else makeTextTexture
               (match slot_value s with Some v => v | None => ""%string end)
               markColor in
      Some (mkDecalPatch i mesh pos normal quat
                         (THREE.mkVector3 size size depth) tex)
  end.

(** [targetRef.current] is [None] until the band mesh is mounted. *)
Definition DecalMarks (targetRef_current : option Mesh)
    (innerR outerR size : R) (slots : SlotArray) (inside : bool)
    (markColor : string) : list DecalPatch :=
  match targetRef_current with
  | None => []
  | Some mesh =>
    let depth := Rmax 0.6 (size * 0.5) in
    for_push 12
      (DecalMarks_body mesh innerR outerR size slots inside markColor depth)
  end.

(** ** 3D gems *)

Record GemPlacement := mkGemPlacement {
  gem_key : nat;
  gem_position : list R;
  gem_quaternion : THREE.Quaternion;
  gem_radius : R;
  gem_color : string;
  gem_thickness : R;
  gem_ior : R;
  seat_position : list R;
  seat_radius_top : R;
  seat_radius_bottom : R;
  seat_height : R }.

Definition Gems_body (innerR outerR height size : R) (slots : SlotArray)
    (inside : bool) (i : nat) : option GemPlacement :=
  match slot_at slots i with
  | None => None
  | Some s =>
    if negb (String.eqb (kind s) "stone") then None
    else
      let a := angleForIndex (INR i) 12 in
      let normal :=
        THREE.normalize
          (THREE.multiplyScalar (THREE.mkVector3 (cos a) 0 (sin a))
                                (if inside then -1 else 1)) in
      let baseR := if inside then innerR else outerR in
      let gemSize := Rmax 0.8 (size * 0.55) in
      let offset := gemSize * 0.6 in (* slightly out of the surface *)
      let pos :=
        THREE.multiplyScalar normal
          (baseR + (if inside then - offset else offset)) in
      (* Orientation: align gem Y axis with normal *)
      let quat := THREE.setFromUnitVectors (THREE.mkVector3 0 1 0) normal in
      let stone :=
        match find (fun st => key_is (st_key st) (slot_value s)) STONES with
        | Some st => st
        | None => nth 0 STONES diamond
        end in
      let color := st_hex stone in
      let ior := match st_ior stone with Some v => v | None => 1.6 end in
      Some (mkGemPlacement i (THREE.toArray pos) quat gemSize color
              (gemSize * 0.9) ior
              [0; - gemSize * 0.52; 0]
              (gemSize * 0.58) (gemSize * 0.62)
              (Rmin 0.5 (height * 0.3)))
  end.

Definition Gems (innerR outerR height size : R) (slots : SlotArray)
    (inside : bool) : list GemPlacement :=
  for_push 12 (Gems_body innerR outerR height size slots inside).

(** ** Main App: state and diagnostics *)

Definition Rgtb (a b : R) : bool := if Rgt_dec a b then true else false.

(** Default: zodiac sequence around the band (slot #1 at front). *)
Definition initialSlots : list Slot :=
  map (fun i => Zodiac (z_key (nth (i mod 12) ZODIAC (mkZodiac "" "" ""))))
      (seq 0 12).

Record Diagnostics := mkDiagnostics {
  twelveSlots : bool;
  geometryValid : bool;
  slotsValid : bool }.

Definition tests (slots : list Slot) (innerDiameter bandWidth bandHeight : R)
  : Diagnostics :=
  let innerR := innerDiameter / 2 in
  let outerR := innerR + bandWidth in
  mkDiagnostics
    (Nat.eqb (List.length slots) 12)
    (Rgtb outerR innerR && Rgtb innerDiameter 0 && Rgtb bandHeight 0)
    (forallb
       (fun s =>
          (String.eqb (kind s) "zodiac"
             && existsb (fun z => key_is (z_key z) (slot_value s)) ZODIAC)
          || (String.eqb (kind s) "stone"
                && existsb (fun st => key_is (st_key st) (slot_value s)) STONES)
          || String.eqb (kind s) "text")
       slots).

(** ** Vocabulary of the statements *)

(** What one turn of the loop pushes. *)
Definition pushed {A : Type} (body : nat -> option A) (i : nat) : list A :=
  match body i with
  | Some e => [e]
  | None => []
  end.

Definition produces {A : Type} (body : nat -> option A) (i : nat) : bool :=
  match body i with
  | Some _ => true
  | None => false
  end.

(** Cells the decal loop does not skip: a zodiac or text slot. *)
Definition is_mark (cell : option Slot) : bool :=
  match cell with
  | Some (Zodiac _) | Some (Text _) => true
  | _ => false
  end.

(** Cells the gem loop does not skip: a stone slot. *)
Definition is_stone (cell : option Slot) : bool :=
  match cell with
  | Some (Stone _) => true
  | _ => false
  end.

(** The direction of slot [i] in the band's horizontal plane. *)
Definition direction (i : nat) : THREE.Vector3 :=
  let a := angleForIndex (INR i) 12 in
  THREE.mkVector3 (cos a) 0 (sin a).

Definition gemSize_of (size : R) : R := Rmax 0.8 (size * 0.55).

(** Signed distance from the axis, along the slot direction, at which the
    gem loop puts a gem centre: [baseR + offset] along the normal, the
    normal being the direction itself or its opposite. *)
Definition Gems_radial (innerR outerR size : R) (inside : bool) : R :=
  if inside then - (innerR - 0.6 * gemSize_of size)
  else outerR + 0.6 * gemSize_of size.

Definition Gems_position (innerR outerR size : R) (inside : bool) (i : nat)
  : list R :=
  THREE.toArray
    (THREE.multiplyScalar (direction i) (Gems_radial innerR outerR size inside)).

(** The radius at which the decal loop anchors a mark. *)
Definition DecalMarks_radius (innerR outerR : R) (inside : bool) : R :=
  if inside then innerR + 0.05 else outerR - 0.05.

(** ** Sample configurations *)

(** The default configuration with a seven-character text in slot 0. *)
Definition seven_character_slots : list Slot :=
  Text (Some "ABCDEFG"%string) :: tl initialSlots.

(** The first eleven slots of the default configuration. *)
Definition eleven_slots : list Slot := firstn 11 initialSlots.

Definition sample_mesh : Mesh := mkMesh (Band_geom 9 3 2.2) "#d4af37".

(** ** The control panel: slot edits and sliders *)

(** [Slot["kind"]], the three options of the kind selector. *)
Inductive Kind := KZodiac | KStone | KText.

(** The patches the handlers hand to [updateSlot]: the kind selector sends a
    kind with a value, the other three controls send a value alone. *)
Inductive Patch :=
| PatchKindValue (k : Kind) (v : string)
| PatchValue (v : string).

(** [{ ...s, ...patch }] *)
Definition merge (s : Slot) (patch : Patch) : Slot :=
  match patch with
  | PatchKindValue KZodiac v => Zodiac v
  | PatchKindValue KStone v => Stone v
  | PatchKindValue KText v => Text (Some v)
  | PatchValue v =>
    match s with
    | Zodiac _ => Zodiac v
    | Stone _ => Stone v
    | Text _ => Text (Some v)
    end
  end.

(** [prev.map((s, i) => ...)], counting from [i]. *)
Fixpoint map_from {A B : Type} (f : A -> nat -> B) (i : nat) (l : list A)
  : list B :=
  match l with
  | [] => []
  | a :: l' => f a i :: map_from f (S i) l'
  end.

Definition updateSlot (idx : nat) (patch : Patch) (prev : list Slot)
  : list Slot :=
  map_from (fun s i => if Nat.eqb i idx then merge s patch else s) 0 prev.

(** The patch sent by the kind selector of a slot. *)
Definition kind_patch (k : Kind) : Patch :=
  match k with
  | KZodiac => PatchKindValue KZodiac (z_key (nth 0 ZODIAC (mkZodiac "" "" "")))
  | KStone => PatchKindValue KStone (st_key (nth 0 STONES diamond))
  | KText => PatchKindValue KText "AB"
  end.

Module UI.

(** The state hooks of [App]. *)
Record State := mkState {
  innerDiameter : R;
  bandWidth : R;
  bandHeight : R;
  markSize : R;
  inside : bool;
  goldColor : string;
  markColor : string;
  slots : list Slot }.

Definition initial : State :=
  mkState 18.0 3.0 2.2 2.6 false "#d4af37" "#3b3b3b" initialSlots.

(** What a control of the panel can send. *)
Inductive Event :=
| InnerDiameterMoved (v : R)
| BandWidthMoved (v : R)
| BandHeightMoved (v : R)
| MarkSizeMoved (v : R)
| InsideChecked (b : bool)
| MetalPicked (c : string)
| MarkPicked (c : string)
| KindSelected (i : nat) (k : Kind)
| ZodiacSelected (i : nat) (key : string)
| StoneSelected (i : nat) (key : string)
| TextTyped (i : nat) (v : string).

(** The [onChange] handlers. *)
Definition handle (e : Event) (st : State) : State :=
  match e with
  | InnerDiameterMoved v =>
    mkState v (bandWidth st) (bandHeight st) (markSize st) (inside st)
            (goldColor st) (markColor st) (slots st)
  | BandWidthMoved v =>
    mkState (innerDiameter st) v (bandHeight st) (markSize st) (inside st)
            (goldColor st) (markColor st) (slots st)
  | BandHeightMoved v =>
    mkState (innerDiameter st) (bandWidth st) v (markSize st) (inside st)
            (goldColor st) (markColor st) (slots st)
  | MarkSizeMoved v =>
    mkState (innerDiameter st) (bandWidth st) (bandHeight st) v (inside st)
            (goldColor st) (markColor st) (slots st)
  | InsideChecked b =>
    mkState (innerDiameter st) (bandWidth st) (bandHeight st) (markSize st) b
            (goldColor st) (markColor st) (slots st)
  | MetalPicked c =>
    mkState (innerDiameter st) (bandWidth st) (bandHeight st) (markSize st)
            (inside st) c (markColor st) (slots st)
  | MarkPicked c =>
    mkState (innerDiameter st) (bandWidth st) (bandHeight st) (markSize st)
            (inside st) (goldColor st) c (slots st)
  | KindSelected i k =>
    mkState (innerDiameter st) (bandWidth st) (bandHeight st) (markSize st)
            (inside st) (goldColor st) (markColor st)
            (updateSlot i (kind_patch k) (slots st))
  | ZodiacSelected i key | StoneSelected i key | TextTyped i key =>
    mkState (innerDiameter st) (bandWidth st) (bandHeight st) (markSize st)
            (inside st) (goldColor st) (markColor st)
            (updateSlot i (PatchValue key) (slots st))
  end.

(** When the panel can send an event: a slider stays between its [min] and
    [max]; a slot row exists for each slot; the sign, stone and text controls
    of a row are rendered only for a slot of their kind, and the two
    selectors offer the catalogue keys. *)
Definition offered (e : Event) (st : State) : Prop :=
  match e with
  | InnerDiameterMoved v => 14 <= v <= 24
  | BandWidthMoved v => 1.8 <= v <= 6
  | BandHeightMoved v => 1.2 <= v <= 3.5
  | MarkSizeMoved v => 1 <= v <= 6
  | InsideChecked _ | MetalPicked _ | MarkPicked _ => True
  | KindSelected i _ => (i < List.length (slots st))%nat
  | ZodiacSelected i key =>
    (exists cur, nth_error (slots st) i = Some (Zodiac cur)) /\
    In key (map z_key ZODIAC)
  | StoneSelected i key =>
    (exists cur, nth_error (slots st) i = Some (Stone cur)) /\
    In key (map st_key STONES)
  | TextTyped i _ =>
    exists cur, nth_error (slots st) i = Some (Text cur)
  end.

(** States the panel can bring about from the initial one. *)
Inductive reachable : State -> Prop :=
| reachable_initial : reachable initial
| reachable_step (e : Event) (st : State) :
    reachable st -> offered e st -> reachable (handle e st).

(** Derived radii. *)
Definition innerR (st : State) : R := innerDiameter st / 2.
Definition outerR (st : State) : R := innerR st + bandWidth st.

(** The diagnostics and the two generators as [App] calls them. *)
Definition diagnostics (st : State) : Diagnostics :=
  tests (slots st) (innerDiameter st) (bandWidth st) (bandHeight st).

Definition decals (ringRef_current : option Mesh) (st : State)
  : list DecalPatch :=
  DecalMarks ringRef_current (innerR st) (outerR st) (markSize st)
             (cells (slots st)) (inside st) (markColor st).

Definition gems (st : State) : list GemPlacement :=
  Gems (innerR st) (outerR st) (bandHeight st) (markSize st)
       (cells (slots st)) (inside st).

End UI.

(** A slot the slot check accepts. *)
Definition slot_ok (s : Slot) : Prop :=
  match s with
  | Zodiac v => In v (map z_key ZODIAC)
  | Stone v => In v (map st_key STONES)
  | Text _ => True
  end.

(** A cell that holds a slot. *)
Definition is_defined (cell : option Slot) : bool :=
  match cell with
  | Some _ => true
  | None => false
  end.

(** * Properties *)

(** ** Slot angles *)

Lemma angleForIndex_12 (i : R) : angleForIndex i 12 = PI / 2 - i * (PI / 6).
Proof. unfold angleForIndex. field. Qed.

Lemma thirty_degrees : deg 30 = 2 * PI / 12.
Proof. unfold deg. field. Qed.

Lemma ninety_degrees : deg 90 = PI / 2.
Proof. unfold deg. field. Qed.

Lemma angle_difference (i j : nat) :
  angleForIndex (INR i) 12 - angleForIndex (INR j) 12
  = (INR j - INR i) * (PI / 6).
Proof. rewrite !angleForIndex_12. ring. Qed.

(** A whole number of turns made of fewer than twelve steps is no turn. *)
Lemma turns_below_twelve (i j : nat) (k : Z) :
  (i < 12)%nat -> (j < 12)%nat ->
  (INR j - INR i) * (PI / 6) = IZR k * (2 * PI) -> i = j.
Proof.
  intros Hi Hj H.
  assert (Hpi : PI <> 0) by apply PI_neq0.
  assert (E : INR j - INR i = IZR (12 * k)).
  { rewrite mult_IZR.
    apply (Rmult_eq_reg_r (PI / 6)); [ | lra ].
    rewrite H. field. }
  rewrite !INR_IZR_INZ, <- minus_IZR in E.
  apply eq_IZR in E. lia.
Qed.

(** C1. For every index i in 0..11, angleForIndex(i,12) is the reference
    angle +90 degrees (PI/2) minus i times 30 degrees (i*2*PI/12); index 0
    gives PI/2; each next index is a smaller angle (clockwise); and the twelve
    angles are pairwise distinct modulo 360 degrees. *)
Theorem angleForIndex_reference_and_distinct (i : nat) :
  (i < 12)%nat ->
  angleForIndex 0 12 = PI / 2 /\
  angleForIndex (INR i) 12 = deg 90 - INR i * deg 30 /\
  angleForIndex (INR i) 12 = PI / 2 - INR i * (2 * PI / 12) /\
  angleForIndex (INR (S i)) 12 < angleForIndex (INR i) 12 /\
  forall j : nat, (j < 12)%nat ->
    same_direction (angleForIndex (INR i) 12) (angleForIndex (INR j) 12) ->
    i = j.
Proof.
  intros Hi. repeat split.
  - rewrite angleForIndex_12. lra.
  - rewrite angleForIndex_12. unfold deg. field.
  - rewrite angleForIndex_12. field.
  - rewrite !angleForIndex_12, S_INR.
    pose proof PI_RGT_0. lra.
  - intros j Hj [k Hk].
    rewrite angle_difference in Hk.
    exact (turns_below_twelve i j k Hi Hj Hk).
Qed.

Lemma angleForIndex_reference_and_distinct_witness :
  (3 < 12)%nat /\
  angleForIndex (INR 3) 12 = PI / 2 - INR 3 * (2 * PI / 12) /\
  angleForIndex (INR 4) 12 < angleForIndex (INR 3) 12.
Proof.
  destruct (angleForIndex_reference_and_distinct 3 ltac:(lia))
    as (_ & _ & H1 & H2 & _).
  split; [ lia | split; [ exact H1 | exact H2 ] ].
Defined.

(** ** The push loop *)

Section PushLoop.

Context {A : Type} (body : nat -> option A).

Lemma fold_push_app (l : list nat) (acc : list A) :
  fold_left
    (fun items i =>
       match body i with
       | Some e => items ++ [e]
       | None => items
       end) l acc
  = acc ++ flat_map (pushed body) l.
Proof.
  revert acc. induction l as [ | i l IH ]; intros acc; simpl.
  - now rewrite app_nil_r.
  - rewrite IH. unfold pushed at 2.
    destruct (body i); simpl.
    + now rewrite <- app_assoc.
    + reflexivity.
Qed.

Lemma for_push_flat_map (n : nat) :
  for_push n body = flat_map (pushed body) (seq 0 n).
Proof. unfold for_push. now rewrite fold_push_app. Qed.

Lemma in_for_push (n : nat) (e : A) :
  In e (for_push n body) <-> exists i, (i < n)%nat /\ body i = Some e.
Proof.
  rewrite for_push_flat_map, in_flat_map. split.
  - intros (i & Hi & He). exists i. apply in_seq in Hi.
    unfold pushed in He. destruct (body i) as [ e' | ]; simpl in He.
    + destruct He as [ -> | [] ]. split; [ lia | reflexivity ].
    + contradiction.
  - intros (i & Hi & He). exists i. split.
    + apply in_seq. lia.
    + unfold pushed. rewrite He. now left.
Qed.

Variable key : A -> nat.
Hypothesis key_body : forall i e, body i = Some e -> key e = i.

Lemma keys_flat_map (l : list nat) :
  map key (flat_map (pushed body) l) = filter (produces body) l.
Proof.
  induction l as [ | i l IH ]; simpl; [ reflexivity | ].
  rewrite map_app, IH. unfold pushed, produces.
  destruct (body i) as [ e | ] eqn:E; simpl.
  - now rewrite (key_body i e E).
  - reflexivity.
Qed.

Lemma keys_for_push (n : nat) :
  map key (for_push n body) = filter (produces body) (seq 0 n).
Proof. rewrite for_push_flat_map. apply keys_flat_map. Qed.

End PushLoop.

(** Reading the first [n] cells never looks past them. *)
Lemma slot_at_firstn (slots : SlotArray) (n i : nat) :
  (i < n)%nat -> slot_at (firstn n slots) i = slot_at slots i.
Proof.
  intros Hi. unfold slot_at.
  rewrite nth_error_firstn.
  destruct (Nat.ltb_spec i n); [ reflexivity | lia ].
Qed.

Lemma slot_at_cells (slots : list Slot) (i : nat) :
  slot_at (cells slots) i = nth_error slots i.
Proof.
  unfold slot_at, cells. rewrite nth_error_map.
  now destruct (nth_error slots i).
Qed.

Lemma for_push_ext {A : Type} (n : nat) (f g : nat -> option A) :
  (forall i, (i < n)%nat -> f i = g i) -> for_push n f = for_push n g.
Proof.
  intros H. rewrite !for_push_flat_map.
  assert (G : forall l, (forall i, In i l -> (i < n)%nat) ->
                flat_map (pushed f) l = flat_map (pushed g) l).
  { induction l as [ | i l IH ]; intros Hl; simpl; [ reflexivity | ].
    rewrite IH by (intros j Hj; apply Hl; now right).
    unfold pushed. rewrite H by (apply Hl; now left). reflexivity. }
  apply G. intros i Hi. apply in_seq in Hi. lia.
Qed.

(** Counting along the indices of a list is counting along the list. *)
Lemma filter_indices_length {A : Type} (p : option A -> bool) (l : list A) :
  List.length (filter (fun i => p (nth_error l i)) (seq 0 (List.length l)))
  = List.length (filter (fun a => p (Some a)) l).
Proof.
  induction l as [ | a l IH ]; [ reflexivity | ].
  assert (E : forall js,
             List.length
               (filter (fun i => p (nth_error (a :: l) i)) (map S js))
             = List.length (filter (fun i => p (nth_error l i)) js)).
  { induction js as [ | j js IHj ]; [ reflexivity | ].
    cbn [map filter nth_error].
    destruct (p (nth_error l j)); cbn [List.length]; now rewrite IHj. }
  cbn [List.length seq filter nth_error].
  rewrite <- seq_shift.
  destruct (p (Some a)); cbn [List.length]; now rewrite E, IH.
Qed.

(** ** Directions and normals *)

Lemma vector3_eq (u v : THREE.Vector3) :
  THREE.x u = THREE.x v -> THREE.y u = THREE.y v -> THREE.z u = THREE.z v ->
  u = v.
Proof. destruct u, v; simpl; intros -> -> ->; reflexivity. Qed.

Lemma sin_cos_unit (a : R) : cos a * cos a + sin a * sin a = 1.
Proof. pose proof (sin2_cos2 a) as H. unfold Rsqr in H. lra. Qed.

(** The vector the loops call [normal]: the slot direction, turned around
    for inside placement.  It already has length 1, so [normalize] keeps it. *)
Lemma normal_is_signed_direction (a : R) (inside : bool) :
  THREE.normalize
    (THREE.multiplyScalar (THREE.mkVector3 (cos a) 0 (sin a))
                          (if inside then -1 else 1))
  = THREE.mkVector3 (if inside then - cos a else cos a) 0
                    (if inside then - sin a else sin a).
Proof.
  assert (L : THREE.length
                (THREE.multiplyScalar (THREE.mkVector3 (cos a) 0 (sin a))
                                      (if inside then -1 else 1)) = 1).
  { unfold THREE.length, THREE.multiplyScalar; simpl.
    destruct inside;
      match goal with
      | |- sqrt ?e = 1 =>
        replace e with (cos a * cos a + sin a * sin a) by ring
      end;
      rewrite sin_cos_unit; apply sqrt_1. }
  unfold THREE.normalize. rewrite L.
  destruct (Req_dec_T 1 0) as [ E | _ ]; [ lra | ].
  unfold THREE.divideScalar, THREE.multiplyScalar; simpl.
  apply vector3_eq; simpl; destruct inside; field.
Qed.

(** Sines of the twelve slot angles: the extreme values, or well inside. *)
Lemma sqrt3_bound : sqrt 3 / 2 <= 9 / 10.
Proof.
  assert (H : sqrt 3 <= sqrt (324 / 100)) by (apply sqrt_le_1; lra).
  replace (324 / 100) with ((18 / 10) * (18 / 10)) in H by field.
  rewrite sqrt_square in H by lra. lra.
Qed.

Lemma cos_slot_steps (i : nat) :
  (i < 12)%nat ->
  let c := cos (INR i * (PI / 6)) in
  c = 1 \/ c = -1 \/ (- 9 / 10 <= c <= 9 / 10).
Proof.
  intros Hi.
  pose proof sqrt3_bound as B.
  assert (B0 : 0 <= sqrt 3) by apply sqrt_pos.
  assert (C1 : cos (PI / 6) = sqrt 3 / 2) by apply cos_PI6.
  assert (C2 : cos (PI / 3) = 1 / 2) by apply cos_PI3.
  assert (C3 : cos (PI / 2) = 0) by apply cos_PI2.
  assert (C4 : cos (2 * (PI / 3)) = -1 / 2) by apply cos_2PI3.
  assert (C5 : cos (- (PI / 6) + PI) = - (sqrt 3 / 2))
    by (rewrite neg_cos, cos_neg, C1; reflexivity).
  assert (C6 : cos PI = -1) by apply cos_PI.
  assert (S : forall u v, u = v + PI -> cos u = - cos v)
    by (intros u v ->; apply neg_cos).
  assert (H : (i = 0 \/ i = 1 \/ i = 2 \/ i = 3 \/ i = 4 \/ i = 5 \/ i = 6
               \/ i = 7 \/ i = 8 \/ i = 9 \/ i = 10 \/ i = 11)%nat) by lia.
  cbv zeta.
  repeat (destruct H as [ -> | H ]); [ .. | subst i ]; simpl INR.
  - left. rewrite Rmult_0_l. apply cos_0.
  - right; right. replace (1 * (PI / 6)) with (PI / 6) by field. lra.
  - right; right. replace ((1 + 1) * (PI / 6)) with (PI / 3) by field. lra.
  - right; right.
    replace ((1 + 1 + 1) * (PI / 6)) with (PI / 2) by field. lra.
  - right; right.
    replace ((1 + 1 + 1 + 1) * (PI / 6)) with (2 * (PI / 3)) by field. lra.
  - right; right.
    replace ((1 + 1 + 1 + 1 + 1) * (PI / 6)) with (- (PI / 6) + PI) by field.
    lra.
  - right; left.
    replace ((1 + 1 + 1 + 1 + 1 + 1) * (PI / 6)) with PI by field. lra.
  - right; right. rewrite (S _ (PI / 6)) by field. lra.
  - right; right. rewrite (S _ (PI / 3)) by field. lra.
  - right; right. rewrite (S _ (PI / 2)) by field. lra.
  - right; right. rewrite (S _ (2 * (PI / 3))) by field. lra.
  - right; right. rewrite (S _ (- (PI / 6) + PI)) by field. lra.
Qed.

Lemma sin_slot_angle (i : nat) :
  (i < 12)%nat ->
  let s := sin (angleForIndex (INR i) 12) in
  s = 1 \/ s = -1 \/ (- 9 / 10 <= s <= 9 / 10).
Proof.
  intros Hi. cbv zeta.
  rewrite angleForIndex_12, sin_shift.
  exact (cos_slot_steps i Hi).
Qed.

Lemma EPSILON_small : 0 < THREE.EPSILON < 1 / 10.
Proof. unfold THREE.EPSILON. lra. Qed.

(** ** The quaternion that turns the forward axis onto a normal *)

Ltac three_proj :=
  cbn [THREE.x THREE.y THREE.z THREE.qx THREE.qy THREE.qz THREE.qw].

Lemma qnormalize_scaled (q : THREE.Quaternion) (l : R) :
  THREE.qlength q = l -> l <> 0 ->
  THREE.qnormalize q
  = THREE.mkQuaternion (THREE.qx q * (1 / l)) (THREE.qy q * (1 / l))
                       (THREE.qz q * (1 / l)) (THREE.qw q * (1 / l)).
Proof.
  intros E Hl. unfold THREE.qnormalize. cbv zeta. rewrite E.
  destruct (Req_dec_T l 0); [ contradiction | reflexivity ].
Qed.

(** For a horizontal unit normal that is either exactly backwards or clear of
    it, [setFromUnitVectors] from the forward axis (0,0,1) gives a rotation
    carrying that axis onto the normal. *)
Lemma forward_axis_onto_normal (nx nz : R) :
  nx * nx + nz * nz = 1 ->
  nz = -1 \/ THREE.EPSILON <= nz + 1 ->
  THREE.applyQuaternion (THREE.mkVector3 0 0 1)
    (THREE.setFromUnitVectors (THREE.mkVector3 0 0 1)
                              (THREE.mkVector3 nx 0 nz))
  = THREE.mkVector3 nx 0 nz.
Proof.
  intros Hunit Hcase.
  pose proof EPSILON_small as [He _].
  unfold THREE.setFromUnitVectors, THREE.dot. cbv zeta. three_proj.
  destruct (Rlt_dec (0 * nx + 0 * 0 + 1 * nz + 1) THREE.EPSILON) as [ Hr | Hr ].
  - (* exactly backwards *)
    assert (Hz : nz = -1) by (destruct Hcase; lra).
    assert (Hx : nx = 0).
    { subst nz. assert (H0 : nx * nx = 0) by lra.
      apply Rmult_integral in H0. now destruct H0. }
    subst nx nz.
    destruct (Rgt_dec (Rabs 0) (Rabs 1)) as [ Habs | _ ].
    { rewrite Rabs_R0, Rabs_R1 in Habs. lra. }
    rewrite (qnormalize_scaled _ 1).
    + unfold THREE.applyQuaternion. cbv zeta. three_proj.
      apply vector3_eq; three_proj; field.
    + unfold THREE.qlength. three_proj.
      replace (0 * 0 + - (1) * - (1) + 0 * 0 + 0 * 0) with 1 by ring.
      apply sqrt_1.
    + lra.
  - (* the general branch *)
    assert (Hpos : 0 < nz + 1) by lra.
    set (q := THREE.mkQuaternion _ _ _ _).
    set (l := THREE.qlength q).
    assert (Hl2 : l * l = 2 * (1 + nz)).
    { unfold l, THREE.qlength, q. three_proj.
      rewrite sqrt_sqrt by nra. nra. }
    assert (Hl : l <> 0) by (intros E; rewrite E in Hl2; lra).
    rewrite (qnormalize_scaled q l eq_refl Hl).
    set (k := 1 / l).
    assert (Hk : k * k * (2 * (1 + nz)) = 1).
    { unfold k. rewrite <- Hl2. field. exact Hl. }
    assert (Hn : nx * nx = (1 - nz) * (1 + nz)) by lra.
    unfold THREE.applyQuaternion, q. cbv zeta. three_proj.
    apply vector3_eq; three_proj.
    + transitivity (nx * (k * k * (2 * (1 + nz)))); [ ring | ].
      rewrite Hk. ring.
    + ring.
    + transitivity (1 - 2 * (k * k) * (nx * nx)); [ ring | ].
      rewrite Hn.
      transitivity (1 - (1 - nz) * (k * k * (2 * (1 + nz)))); [ ring | ].
      rewrite Hk. ring.
Qed.

(** ** One turn of each loop *)

Section LoopBodies.

Variables (mesh : Mesh) (innerR outerR height size : R).
Variables (slots : SlotArray) (inside : bool) (markColor : string) (depth : R).

Local Abbreviation decal_body :=
  (DecalMarks_body mesh innerR outerR size slots inside markColor depth).
Local Abbreviation gem_body := (Gems_body innerR outerR height size slots inside).

Lemma DecalMarks_body_produces (i : nat) :
  produces decal_body i = is_mark (slot_at slots i).
Proof.
  unfold produces, DecalMarks_body.
  destruct (slot_at slots i) as [ [ v | v | v ] | ]; reflexivity.
Qed.

Lemma DecalMarks_body_key (i : nat) (p : DecalPatch) :
  decal_body i = Some p -> decal_key p = i.
Proof.
  unfold DecalMarks_body.
  destruct (slot_at slots i) as [ [ v | v | v ] | ]; cbn;
    intros E; inversion E; reflexivity.
Qed.

Lemma DecalMarks_body_mark (i : nat) (s : Slot) :
  slot_at slots i = Some s -> is_mark (Some s) = true ->
  exists p,
    decal_body i = Some p /\
    decal_key p = i /\
    decal_target p = mesh /\
    decal_position p
    = THREE.multiplyScalar (direction i)
                           (DecalMarks_radius innerR outerR inside) /\
    decal_normal p
    = THREE.multiplyScalar (direction i) (if inside then -1 else 1) /\
    decal_orientation p
    = THREE.setFromUnitVectors (THREE.mkVector3 0 0 1) (decal_normal p) /\
    decal_size p = THREE.mkVector3 size size depth /\
    decal_map p
    = match s with
      | Zodiac v => makeZodiacTexture (Some v) markColor
      | Text (Some v) => makeTextTexture v markColor
      | _ => makeTextTexture "" markColor
      end.
Proof.
  intros Hs Hm. unfold DecalMarks_body. rewrite Hs.
  destruct s as [ v | v | v ]; [ | discriminate Hm | ];
    (eexists; split; [ reflexivity | ]);
    cbn [decal_key decal_target decal_position decal_normal
         decal_orientation decal_size decal_map];
    repeat split.
  all: try (apply vector3_eq; unfold direction, THREE.multiplyScalar,
              DecalMarks_radius; three_proj; ring).
  all: try (rewrite normal_is_signed_direction;
            apply vector3_eq; unfold direction, THREE.multiplyScalar;
            three_proj; destruct inside; ring).
  destruct v; reflexivity.
Qed.

Lemma Gems_body_produces (i : nat) :
  produces gem_body i = is_stone (slot_at slots i).
Proof.
  unfold produces, Gems_body.
  destruct (slot_at slots i) as [ [ v | v | v ] | ]; reflexivity.
Qed.

Lemma Gems_body_key (i : nat) (g : GemPlacement) :
  gem_body i = Some g -> gem_key g = i.
Proof.
  unfold Gems_body.
  destruct (slot_at slots i) as [ [ v | v | v ] | ]; cbn;
    intros E; inversion E; reflexivity.
Qed.

Lemma Gems_body_stone (i : nat) (key : string) :
  slot_at slots i = Some (Stone key) ->
  exists g,
    gem_body i = Some g /\
    gem_key g = i /\
    gem_position g = Gems_position innerR outerR size inside i /\
    gem_radius g = gemSize_of size /\
    (forall st,
       find (fun st => String.eqb (st_key st) key) STONES = Some st ->
       gem_color g = st_hex st /\ Some (gem_ior g) = st_ior st) /\
    (find (fun st => String.eqb (st_key st) key) STONES = None ->
     gem_color g = st_hex diamond /\ Some (gem_ior g) = st_ior diamond).
Proof.
  intros Hs. unfold Gems_body. rewrite Hs.
  change (negb (String.eqb (kind (Stone key)) "stone")) with false.
  cbv iota. eexists; split; [ reflexivity | ].
  cbn [gem_key gem_position gem_radius gem_color gem_ior].
  repeat split.
  - rewrite normal_is_signed_direction.
    unfold Gems_position, Gems_radial, direction, gemSize_of,
      THREE.toArray, THREE.multiplyScalar.
    three_proj. destruct inside; repeat (f_equal; try ring).
  - cbn [slot_value key_is]. rewrite H. reflexivity.
  - cbn [slot_value key_is]. rewrite H.
    (* every catalogue entry carries an index of refraction *)
    apply find_some in H. destruct H as [Hin _].
    cbn [STONES In] in Hin.
    repeat (destruct Hin as [ <- | Hin ]; [ reflexivity | ]).
    contradiction.
  - cbn [slot_value key_is]. rewrite H. reflexivity.
  - cbn [slot_value key_is]. rewrite H. reflexivity.
Qed.

End LoopBodies.

(** ** The two generators as a whole *)

Section Generators.

Variables (mesh : Mesh) (innerR outerR height size : R).
Variables (inside : bool) (markColor : string).

Lemma DecalMarks_keys (slots : SlotArray) :
  map decal_key
      (DecalMarks (Some mesh) innerR outerR size slots inside markColor)
  = filter (fun i => is_mark (slot_at slots i)) (seq 0 12).
Proof.
  unfold DecalMarks.
  rewrite (keys_for_push _ decal_key (DecalMarks_body_key _ _ _ _ _ _ _ _)).
  apply filter_ext. intros i. apply DecalMarks_body_produces.
Qed.

Lemma Gems_keys (slots : SlotArray) :
  map gem_key (Gems innerR outerR height size slots inside)
  = filter (fun i => is_stone (slot_at slots i)) (seq 0 12).
Proof.
  unfold Gems.
  rewrite (keys_for_push _ gem_key (Gems_body_key _ _ _ _ _ _)).
  apply filter_ext. intros i. apply Gems_body_produces.
Qed.

Lemma DecalMarks_firstn (slots : SlotArray) :
  DecalMarks (Some mesh) innerR outerR size slots inside markColor
  = DecalMarks (Some mesh) innerR outerR size (firstn 12 slots)
               inside markColor.
Proof.
  unfold DecalMarks. apply for_push_ext. intros i Hi.
  unfold DecalMarks_body. now rewrite slot_at_firstn.
Qed.

Lemma Gems_firstn (slots : SlotArray) :
  Gems innerR outerR height size slots inside
  = Gems innerR outerR height size (firstn 12 slots) inside.
Proof.
  unfold Gems. apply for_push_ext. intros i Hi.
  unfold Gems_body. now rewrite slot_at_firstn.
Qed.

Lemma Gems_positions (slots : SlotArray) :
  map gem_position (Gems innerR outerR height size slots inside)
  = map (Gems_position innerR outerR size inside)
        (filter (fun i => is_stone (slot_at slots i)) (seq 0 12)).
Proof.
  unfold Gems. rewrite for_push_flat_map.
  induction (seq 0 12) as [ | i l IH ]; [ reflexivity | ].
  cbn [flat_map filter]. rewrite map_app, IH.
  unfold pushed at 1.
  destruct (slot_at slots i) as [ [ v | v | v ] | ] eqn:Hs;
    try (unfold Gems_body; rewrite Hs; reflexivity).
  destruct (Gems_body_stone innerR outerR height size slots inside i v Hs)
    as (g & Hg & _ & Hpos & _).
  rewrite Hg. cbn [is_stone map app]. now rewrite Hpos.
Qed.

End Generators.

(** ** Band *)

Lemma Rgtb_true (a b : R) : a > b -> Rgtb a b = true.
Proof. intros H. unfold Rgtb. destruct (Rgt_dec a b); [ reflexivity | lra ]. Qed.

Lemma Rgtb_false (a b : R) : a <= b -> Rgtb a b = false.
Proof. intros H. unfold Rgtb. destruct (Rgt_dec a b); [ lra | reflexivity ]. Qed.

Lemma collapsed_false (a : Arc) : arc_radius a <> 0 -> collapsed a = false.
Proof.
  intros H. unfold collapsed.
  destruct (Req_dec_T (arc_radius a) 0); [ contradiction | reflexivity ].
Qed.

Lemma collapsed_true (a : Arc) : arc_radius a = 0 -> collapsed a = true.
Proof.
  intros H. unfold collapsed.
  destruct (Req_dec_T (arc_radius a) 0); [ reflexivity | contradiction ].
Qed.

(** With a hole of nonzero radius the band is built, whatever the width and
    the height. *)
Lemma Band_built (innerR bandWidth bandHeight : R) (color : string) :
  innerR <> 0 ->
  Band innerR bandWidth bandHeight color
  = Built (mkMesh (Band_geom innerR bandWidth bandHeight) color).
Proof.
  intros H. unfold Band, ExtrudeGeometry_throws. cbv zeta.
  cbn [Band_geom shape holes outline existsb].
  rewrite (collapsed_false (mkArc 0 0 innerR 0 (PI * 2) true)) by exact H.
  now rewrite andb_false_r.
Qed.

(** With a hole of radius 0 and an outline of nonzero radius the
    constructor's TypeError escapes the builder. *)
Lemma Band_point_hole_throws (bandWidth bandHeight : R) (color : string) :
  bandWidth <> 0 -> Band 0 bandWidth bandHeight color = Thrown TypeError.
Proof.
  intros H. unfold Band, ExtrudeGeometry_throws. cbv zeta.
  cbn [Band_geom shape holes outline existsb].
  rewrite (collapsed_true (mkArc 0 0 0 0 (PI * 2) true)) by reflexivity.
  rewrite (collapsed_false (mkArc 0 0 (0 + bandWidth) 0 (PI * 2) false))
    by (cbn [arc_radius]; lra).
  reflexivity.
Qed.

(** C2, as the claim states it, fails: with band width 0 the builder does
    not report InvalidGeometry; it hands back a mesh whose outer outline
    and hole have the same radius. *)
Lemma Band_zero_width_not_refused :
  Band 9 0 2.2 "#d4af37" <> Failed InvalidGeometry /\
  exists m,
    Band 9 0 2.2 "#d4af37" = Built m /\
    arc_radius (outline (shape (geometry m))) = 9 /\
    map arc_radius (holes (shape (geometry m))) = [9].
Proof.
  rewrite (Band_built 9 0 2.2 "#d4af37") by lra.
  split; [ discriminate | ].
  eexists; split; [ reflexivity | ].
  cbn. split; [ lra | f_equal ].
Qed.

(** C2, amended. For a positive inner diameter, when the band width or the
    band height is not positive the builder does not refuse: it still hands
    back an extrusion of depth h between the radii r_in and r_in + w, and no
    failure. The condition is reported only by the validator, whose
    geometryValid check is false. *)
Theorem Band_builds_degenerate_input
    (innerDiameter bandWidth bandHeight : R) (color : string)
    (slots : list Slot) :
  innerDiameter > 0 ->
  bandWidth <= 0 \/ bandHeight <= 0 ->
  (exists m,
     Band (innerDiameter / 2) bandWidth bandHeight color = Built m /\
     depth (options (geometry m)) = bandHeight /\
     arc_radius (outline (shape (geometry m)))
     = innerDiameter / 2 + bandWidth /\
     map arc_radius (holes (shape (geometry m))) = [innerDiameter / 2]) /\
  geometryValid (tests slots innerDiameter bandWidth bandHeight) = false.
Proof.
  intros Hd Hdeg. split.
  - rewrite Band_built by lra.
    eexists; split; [ reflexivity | ]. cbn. repeat split.
  - unfold tests. cbn [geometryValid].
    destruct Hdeg as [ Hw | Hh ].
    + rewrite (Rgtb_false (innerDiameter / 2 + bandWidth) (innerDiameter / 2))
        by lra.
      reflexivity.
    + rewrite (Rgtb_false bandHeight 0) by lra.
      now rewrite andb_false_r.
Qed.

Lemma Band_builds_degenerate_input_witness :
  18 > 0 /\
  (0 <= 0 \/ 2.2 <= 0) /\
  (exists m, Band (18 / 2) 0 2.2 "#d4af37" = Built m) /\
  geometryValid (tests initialSlots 18 0 2.2) = false.
Proof.
  split; [ lra | ]. split; [ left; lra | ].
  destruct (Band_builds_degenerate_input 18 0 2.2 "#d4af37" initialSlots
              ltac:(lra) ltac:(left; lra))
    as ((m & Hm & _) & Hg).
  split; [ exists m; exact Hm | exact Hg ].
Defined.

(** C7. For positive band height h and width w, the bevel the band builder
    chooses is clamped: thickness at most 0.35 h, size at most 0.6 w. *)
Theorem Band_bevel_clamped (innerR bandWidth bandHeight : R) :
  0 < bandHeight -> 0 < bandWidth ->
  bevelThickness (options (Band_geom innerR bandWidth bandHeight))
    <= 0.35 * bandHeight /\
  bevelSize (options (Band_geom innerR bandWidth bandHeight))
    <= 0.6 * bandWidth.
Proof.
  intros Hh Hw. cbn [Band_geom options bevelThickness bevelSize].
  split; unfold Rmin; destruct (Rle_dec _ _); lra.
Qed.

Lemma Band_bevel_clamped_witness :
  (0 < 2.2 /\ 0 < 3) /\
  bevelThickness (options (Band_geom 9 3 2.2)) <= 0.35 * 2.2 /\
  bevelSize (options (Band_geom 9 3 2.2)) <= 0.6 * 3.
Proof.
  split; [ split; lra | ].
  apply (Band_bevel_clamped 9 3 2.2); lra.
Defined.

(** ** Placement of decals and gems *)

Lemma DecalMarks_positions (mesh : Mesh) (innerR outerR size : R)
    (slots : SlotArray) (inside : bool) (markColor : string) :
  map decal_position
      (DecalMarks (Some mesh) innerR outerR size slots inside markColor)
  = map (fun i => THREE.multiplyScalar (direction i)
                    (DecalMarks_radius innerR outerR inside))
        (filter (fun i => is_mark (slot_at slots i)) (seq 0 12)).
Proof.
  unfold DecalMarks. rewrite for_push_flat_map.
  induction (seq 0 12) as [ | i l IH ]; [ reflexivity | ].
  cbn [flat_map filter]. rewrite map_app, IH.
  unfold pushed at 1.
  destruct (is_mark (slot_at slots i)) eqn:Hm.
  - destruct (slot_at slots i) as [ s | ] eqn:Hs; [ | discriminate Hm ].
    destruct (DecalMarks_body_mark mesh innerR outerR size slots inside
                markColor (Rmax 0.6 (size * 0.5)) i s Hs Hm)
      as (p & Hp & _ & _ & Hpos & _).
    rewrite Hp. cbn [map app]. now rewrite Hpos.
  - pose proof (DecalMarks_body_produces mesh innerR outerR size slots inside
                  markColor (Rmax 0.6 (size * 0.5)) i) as Hpr.
    rewrite Hm in Hpr. unfold produces in Hpr.
    destruct (DecalMarks_body _ _ _ _ _ _ _ _ i); [ discriminate | reflexivity ].
Qed.

Lemma direction_front : direction 0 = THREE.mkVector3 0 0 1.
Proof.
  unfold direction. cbv zeta. change (INR 0) with 0.
  rewrite angleForIndex_12.
  replace (PI / 2 - 0 * (PI / 6)) with (PI / 2) by ring.
  now rewrite cos_PI2, sin_PI2.
Qed.

Lemma gemSize_default : gemSize_of 2.6 = 1.43.
Proof. unfold gemSize_of, Rmax. destruct (Rle_dec _ _); lra. Qed.

(** C3, at a failing input: inner radius 9, outer radius 12, mark size 2.6,
    inside placement, a ruby in slot 0. The slot direction is the front
    (0,0,1) and the claimed centre is (0,0,8.142); the gem loop puts the
    centre at (0,0,-8.142), on the far side of the band, while the decal
    loop anchors the mark of the same slot on the front side, at
    (0,0,9.05). *)
Theorem Gems_inside_centre_on_far_side :
  map gem_position (Gems 9 12 2.2 2.6 [Some (Stone "ruby")] true)
  = [[0; 0; -8.142]] /\
  THREE.toArray
    (THREE.multiplyScalar (direction 0) (9 - 0.6 * gemSize_of 2.6))
  = [0; 0; 8.142] /\
  map decal_position
      (DecalMarks (Some sample_mesh) 9 12 2.6
                  [Some (Zodiac "aries")] true "#3b3b3b")
  = [THREE.mkVector3 0 0 9.05].
Proof.
  split; [ | split ].
  - rewrite Gems_positions.
    change (filter _ (seq 0 12)) with [0%nat]. cbn [map].
    unfold Gems_position, Gems_radial.
    rewrite direction_front, gemSize_default.
    unfold THREE.toArray, THREE.multiplyScalar. three_proj.
    repeat (f_equal; try lra).
  - rewrite direction_front, gemSize_default.
    unfold THREE.toArray, THREE.multiplyScalar. three_proj.
    repeat (f_equal; try lra).
  - rewrite DecalMarks_positions.
    change (filter _ (seq 0 12)) with [0%nat]. cbn [map].
    rewrite direction_front.
    unfold DecalMarks_radius, THREE.multiplyScalar. three_proj.
    f_equal. apply vector3_eq; three_proj; lra.
Qed.

(** C5. For every zodiac or text slot at index i, with a the angle of the
    slot, the decal is anchored at (cos a, 0, sin a) scaled to inner radius
    + 0.05 (inside placement) or outer radius - 0.05 (outside placement); its
    normal is (cos a, 0, sin a), inverted for inside placement; and its
    orientation carries the forward axis (0,0,1) onto that normal. *)
Theorem DecalMarks_anchor_and_forward_axis
    (mesh : Mesh) (innerR outerR size : R) (slots : SlotArray)
    (inside : bool) (markColor : string) (i : nat) (s : Slot) :
  (i < 12)%nat ->
  slot_at slots i = Some s ->
  is_mark (Some s) = true ->
  let a := angleForIndex (INR i) 12 in
  let decals :=
    DecalMarks (Some mesh) innerR outerR size slots inside markColor in
  exists p,
    In p decals /\
    decal_key p = i /\
    decal_position p
    = THREE.multiplyScalar (THREE.mkVector3 (cos a) 0 (sin a))
        (if inside then innerR + 0.05 else outerR - 0.05) /\
    decal_normal p
    = THREE.multiplyScalar (THREE.mkVector3 (cos a) 0 (sin a))
        (if inside then -1 else 1) /\
    THREE.applyQuaternion (THREE.mkVector3 0 0 1) (decal_orientation p)
    = decal_normal p /\
    (forall p', In p' decals -> decal_key p' = i -> p' = p).
Proof.
  intros Hi Hs Hm a decals.
  destruct (DecalMarks_body_mark mesh innerR outerR size slots inside
              markColor (Rmax 0.6 (size * 0.5)) i s Hs Hm)
    as (p & Hp & Hkey & _ & Hpos & Hnorm & Hori & _).
  exists p. repeat split.
  - apply in_for_push. exists i. split; [ exact Hi | exact Hp ].
  - exact Hkey.
  - exact Hpos.
  - exact Hnorm.
  - rewrite Hori.
    set (nx := if inside then - cos a else cos a).
    set (nz := if inside then - sin a else sin a).
    assert (N : decal_normal p = THREE.mkVector3 nx 0 nz).
    { rewrite Hnorm. unfold direction, THREE.multiplyScalar, nx, nz.
      apply vector3_eq; three_proj; fold a; destruct inside; ring. }
    rewrite N. apply forward_axis_onto_normal.
    + pose proof (sin_cos_unit a). unfold nx, nz. destruct inside; lra.
    + pose proof EPSILON_small as [_ He].
      pose proof (sin_slot_angle i Hi) as Hsin. cbv zeta in Hsin. fold a in Hsin.
      unfold nz. destruct inside; lra.
  - intros p' Hin Hk.
    apply in_for_push in Hin. destruct Hin as (j & _ & Hj).
    pose proof (DecalMarks_body_key _ _ _ _ _ _ _ _ _ _ Hj) as Hkj.
    assert (j = i) by congruence. subst j.
    unfold decals in *. congruence.
Qed.

Lemma DecalMarks_anchor_and_forward_axis_witness :
  exists p,
    In p (DecalMarks (Some sample_mesh) 9 12 2.6
            (cells initialSlots) false "#3b3b3b") /\
    decal_key p = 3%nat /\
    THREE.applyQuaternion (THREE.mkVector3 0 0 1) (decal_orientation p)
    = decal_normal p.
Proof.
  destruct (DecalMarks_anchor_and_forward_axis
              sample_mesh 9 12 2.6
              (cells initialSlots) false "#3b3b3b" 3 (Zodiac "cancer")
              ltac:(lia) eq_refl eq_refl)
    as (p & Hin & Hk & _ & _ & Hq & _).
  exists p. split; [ exact Hin | split; [ exact Hk | exact Hq ] ].
Defined.

(** ** Diagnostics *)


Lemma existsb_key_false {A : Type} (k : A -> string) (l : list A)
    (key : string) :
  ~ In key (map k l) ->
  existsb (fun a => key_is (k a) (Some key)) l = false.
Proof.
  induction l as [ | a l IH ]; intros Hn; [ reflexivity | ].
  cbn [existsb key_is]. destruct (String.eqb_spec (k a) key) as [ E | _ ].
  - exfalso. apply Hn. left. exact E.
  - apply IH. intros Hin. apply Hn. now right.
Qed.

(** The check one slot has to pass in [slotsValid]. *)
Lemma slot_check_text (v : option string) (pre post : list Slot)
    (d w h : R) :
  slotsValid (tests (pre ++ Text v :: post) d w h)
  = slotsValid (tests (pre ++ post) d w h).
Proof.
  unfold tests. cbn [slotsValid].
  rewrite !forallb_app. cbn [forallb kind]. reflexivity.
Qed.

(** C8. The three checks are independent: in a 12-entry configuration with
    valid geometry, a slot holding a stone key outside the catalogue makes
    slotsValid false and leaves twelveSlots and geometryValid true; with
    valid geometry and 11 slots, twelveSlots is false. twelveSlots reads
    only the number of slots and geometryValid only the dimensions. *)
Theorem tests_checks_independent
    (slots : list Slot) (innerDiameter bandWidth bandHeight : R)
    (i : nat) (key : string) :
  List.length slots = 12%nat ->
  bandWidth > 0 -> innerDiameter > 0 -> bandHeight > 0 ->
  nth_error slots i = Some (Stone key) ->
  ~ In key (map st_key STONES) ->
  let t := tests slots innerDiameter bandWidth bandHeight in
  slotsValid t = false /\ twelveSlots t = true /\ geometryValid t = true /\
  (forall slots11,
     List.length slots11 = 11%nat ->
     let t11 := tests slots11 innerDiameter bandWidth bandHeight in
     twelveSlots t11 = false /\ geometryValid t11 = true) /\
  (forall slots' d w h,
     List.length slots' = List.length slots ->
     twelveSlots (tests slots' d w h) = twelveSlots t) /\
  (forall slots',
     geometryValid (tests slots' innerDiameter bandWidth bandHeight)
     = geometryValid t).
Proof.
  intros Hlen Hw Hd Hh Hnth Hkey t.
  assert (G : forall l, geometryValid
                          (tests l innerDiameter bandWidth bandHeight) = true).
  { intros l. unfold tests. cbn [geometryValid].
    rewrite !Rgtb_true by lra. reflexivity. }
  split; [ | split; [ | split; [ | split; [ | split ] ] ] ].
  - unfold t, tests. cbn [slotsValid].
    match goal with |- forallb ?f slots = false =>
      destruct (forallb f slots) eqn:E; [ exfalso | reflexivity ];
      pose proof (proj1 (forallb_forall f slots) E (Stone key)
                        (nth_error_In slots i Hnth)) as Hc
    end.
    cbn [kind slot_value] in Hc.
    rewrite (existsb_key_false st_key STONES key Hkey) in Hc.
    discriminate Hc.
  - unfold t, tests. cbn [twelveSlots]. now rewrite Hlen.
  - apply G.
  - intros slots11 H11 t11. split; [ | apply G ].
    unfold t11, tests. cbn [twelveSlots]. now rewrite H11.
  - intros slots' d w h E. unfold t, tests. cbn [twelveSlots]. now rewrite E.
  - intros slots'. unfold t. now rewrite !G.
Qed.

Lemma tests_checks_independent_witness :
  let t := tests (Stone "opal" :: tl initialSlots) 18 3 2.2 in
  slotsValid t = false /\ twelveSlots t = true /\ geometryValid t = true /\
  twelveSlots (tests eleven_slots 18 3 2.2) = false.
Proof.
  assert (Hkey : ~ In "opal"%string (map st_key STONES)).
  { cbn. intros H.
    repeat (destruct H as [ H | H ]; [ discriminate H | ]). exact H. }
  destruct (tests_checks_independent
              (Stone "opal" :: tl initialSlots) 18 3 2.2 0 "opal"
              eq_refl ltac:(lra) ltac:(lra) ltac:(lra) eq_refl Hkey)
    as (H1 & H2 & H3 & H11 & _).
  intros t.
  split; [ exact H1 | split; [ exact H2 | split; [ exact H3 | ] ] ].
  exact (proj1 (H11 eleven_slots eq_refl)).
Defined.

(** C4, as the claim states it, fails: a configuration whose slot 0 is a
    text of seven characters passes the slot check. *)
Lemma seven_character_text_passes_validation :
  ~ (slotsValid (tests seven_character_slots 18 3 2.2) = false).
Proof.
  unfold tests. cbn [slotsValid]. vm_compute. discriminate.
Qed.

(** C4, amended. A text slot never makes the slot check false, whatever its
    length; the rasterizer draws the whole string it is handed, with six
    characters or any other number, and so does the decal made for a text
    slot. *)
Theorem text_accepted_and_drawn_whole
    (text color : string) (pre post : list Slot) (d w h : R)
    (mesh : Mesh) (innerR outerR size : R) (slots : SlotArray)
    (inside : bool) (i : nat) :
  slotsValid (tests (pre ++ Text (Some text) :: post) d w h)
  = slotsValid (tests (pre ++ post) d w h) /\
  fillText_text (makeTextTexture text color) = text /\
  ((i < 12)%nat -> slot_at slots i = Some (Text (Some text)) ->
   exists p,
     In p (DecalMarks (Some mesh) innerR outerR size slots inside color) /\
     decal_key p = i /\
     fillText_text (decal_map p) = text).
Proof.
  split; [ apply slot_check_text | ].
  split; [ reflexivity | ].
  intros Hi Hs.
  destruct (DecalMarks_body_mark mesh innerR outerR size slots inside
              color (Rmax 0.6 (size * 0.5)) i _ Hs eq_refl)
    as (p & Hp & Hkey & _ & _ & _ & _ & _ & Hmap).
  exists p. repeat split.
  - apply in_for_push. exists i. split; [ exact Hi | exact Hp ].
  - exact Hkey.
  - rewrite Hmap. reflexivity.
Qed.

Lemma text_accepted_and_drawn_whole_witness :
  slotsValid (tests seven_character_slots 18 3 2.2)
  = slotsValid (tests (tl initialSlots) 18 3 2.2) /\
  exists p,
    In p (DecalMarks (Some sample_mesh) 9 12 2.6
            (cells seven_character_slots) false "#3b3b3b") /\
    decal_key p = 0%nat /\
    fillText_text (decal_map p) = "ABCDEFG"%string.
Proof.
  destruct (text_accepted_and_drawn_whole
              "ABCDEFG" "#3b3b3b" [] (tl initialSlots) 18 3 2.2
              sample_mesh 9 12 2.6 (cells seven_character_slots) false 0)
    as (H1 & _ & H3).
  split; [ exact H1 | ].
  apply H3; [ lia | reflexivity ].
Defined.

(** ** Catalogue fallbacks *)




(** ** Which slots produce output *)

Lemma initialSlots_signs :
  initialSlots = map (fun z => Zodiac (z_key z)) ZODIAC.
Proof. reflexivity. Qed.

(** C6. For a 12-entry configuration (the band mesh being mounted), the
    decal path yields exactly one patch per zodiac or text slot, keyed by the
    slot index, and none for a stone slot; the configuration running through
    the twelve signs from aries yields exactly 12 patches. *)
Theorem DecalMarks_one_patch_per_mark_slot
    (mesh : Mesh) (innerR outerR size : R) (slots : list Slot)
    (inside : bool) (markColor : string) :
  List.length slots = 12%nat ->
  let decals :=
    DecalMarks (Some mesh) innerR outerR size (cells slots) inside markColor in
  map decal_key decals
  = filter (fun i => is_mark (nth_error slots i)) (seq 0 12) /\
  NoDup (map decal_key decals) /\
  List.length decals = List.length (filter (fun s => is_mark (Some s)) slots) /\
  (forall i key,
     nth_error slots i = Some (Stone key) ->
     ~ In i (map decal_key decals)) /\
  List.length
    (DecalMarks (Some mesh) innerR outerR size (cells initialSlots)
                inside markColor) = 12%nat.
Proof.
  intros Hlen decals.
  assert (K : forall l : list Slot,
            map decal_key
                (DecalMarks (Some mesh) innerR outerR size (cells l)
                            inside markColor)
            = filter (fun i => is_mark (nth_error l i)) (seq 0 12)).
  { intros l. rewrite DecalMarks_keys. apply filter_ext.
    intros i. now rewrite slot_at_cells. }
  split; [ apply K | ].
  split; [ unfold decals; rewrite K; apply NoDup_filter, seq_NoDup | ].
  split; [ | split ].
  - rewrite <- (length_map decal_key). unfold decals. rewrite K.
    rewrite <- Hlen. apply filter_indices_length.
  - intros i key Hs Hin. unfold decals in Hin. rewrite K in Hin.
    apply filter_In in Hin. destruct Hin as [_ Hm].
    rewrite Hs in Hm. discriminate Hm.
  - rewrite <- (length_map decal_key), K. reflexivity.
Qed.

Lemma DecalMarks_one_patch_per_mark_slot_witness :
  List.length initialSlots = 12%nat /\
  map decal_key
      (DecalMarks (Some sample_mesh) 9 12 2.6
                  (cells (Stone "ruby" :: tl initialSlots)) false "#3b3b3b")
  = [1; 2; 3; 4; 5; 6; 7; 8; 9; 10; 11]%nat.
Proof.
  split; [ reflexivity | ].
  exact (proj1 (DecalMarks_one_patch_per_mark_slot sample_mesh 9 12 2.6
                  (Stone "ruby" :: tl initialSlots) false "#3b3b3b" eq_refl)).
Defined.

(** C10. For a slots array of any length, both generators are total and
    look only at indices 0 to 11: cells from index 12 on change nothing, a
    missing cell at an index below 12 is skipped, and every zodiac, text or
    stone slot present below index 12 still gets its decal or its gem, also
    when the array does not have twelve entries. *)
Theorem generators_read_first_twelve_cells
    (mesh : Mesh) (innerR outerR height size : R) (slots : SlotArray)
    (inside : bool) (markColor : string) :
  let decals :=
    DecalMarks (Some mesh) innerR outerR size slots inside markColor in
  let gems := Gems innerR outerR height size slots inside in
  decals = DecalMarks (Some mesh) innerR outerR size (firstn 12 slots)
                      inside markColor /\
  gems = Gems innerR outerR height size (firstn 12 slots) inside /\
  map decal_key decals
  = filter (fun i => is_mark (slot_at slots i)) (seq 0 12) /\
  map gem_key gems
  = filter (fun i => is_stone (slot_at slots i)) (seq 0 12) /\
  (forall i, slot_at slots i = None \/ (12 <= i)%nat ->
     ~ In i (map decal_key decals) /\ ~ In i (map gem_key gems)) /\
  (forall i s, (i < 12)%nat -> slot_at slots i = Some s ->
     if is_stone (Some s)
     then In i (map gem_key gems) /\ ~ In i (map decal_key decals)
     else In i (map decal_key decals) /\ ~ In i (map gem_key gems)).
Proof.
  intros decals gems.
  pose proof (DecalMarks_keys mesh innerR outerR size inside markColor slots)
    as KD.
  pose proof (Gems_keys innerR outerR height size inside slots) as KG.
  fold decals in KD. fold gems in KG.
  split; [ apply DecalMarks_firstn | ].
  split; [ apply Gems_firstn | ].
  split; [ exact KD | ].
  split; [ exact KG | ].
  split.
  - intros i Hi. rewrite KD, KG, !filter_In, in_seq.
    destruct Hi as [ Hnone | Hbig ].
    + rewrite Hnone. cbn. split; intros [_ H]; discriminate H.
    + split; intros [H _]; lia.
  - intros i s Hi Hs. rewrite KD, KG.
    assert (Hseq : In i (seq 0 12)) by (apply in_seq; lia).
    destruct s as [ v | v | v ]; cbn [is_stone]; split;
      try (apply filter_In; split; [ exact Hseq | now rewrite Hs ]);
      intros Hin; apply filter_In in Hin; destruct Hin as [_ H];
      rewrite Hs in H; discriminate H.
Qed.

Lemma generators_read_first_twelve_cells_witness :
  twelveSlots (tests eleven_slots 18 3 2.2) = false /\
  In 10%nat
     (map decal_key
          (DecalMarks (Some sample_mesh) 9 12 2.6 (cells eleven_slots)
                      false "#3b3b3b")) /\
  ~ In 11%nat
     (map decal_key
          (DecalMarks (Some sample_mesh) 9 12 2.6 (cells eleven_slots)
                      false "#3b3b3b")).
Proof.
  destruct (generators_read_first_twelve_cells sample_mesh 9 12 2.2 2.6
              (cells eleven_slots) false "#3b3b3b")
    as (_ & _ & _ & _ & Hskip & Hhit).
  split; [ reflexivity | split ].
  - exact (proj1 (Hhit 10%nat (Zodiac "aquarius") ltac:(lia) eq_refl)).
  - exact (proj1 (Hskip 11%nat (or_introl eq_refl))).
Defined.

(** * Further properties of the code *)

(** ** Slot angles for any number of slots *)

(** X1. For any positive number of slots, going round by that many indices
    comes back to the same direction, and two indices below it that point the
    same way are equal. *)
Theorem angleForIndex_any_total (n i j : nat) :
  (0 < n)%nat ->
  same_direction (angleForIndex (INR (i + n)) (INR n))
                 (angleForIndex (INR i) (INR n)) /\
  ((i < n)%nat -> (j < n)%nat ->
   same_direction (angleForIndex (INR i) (INR n))
                  (angleForIndex (INR j) (INR n)) ->
   i = j).
Proof.
  intros Hn.
  assert (Hn0 : INR n <> 0) by (apply not_0_INR; lia).
  assert (Hpi : PI <> 0) by apply PI_neq0.
  split.
  - exists (-1)%Z. unfold angleForIndex. rewrite plus_INR. field. exact Hn0.
  - intros Hi Hj [k Hk]. unfold angleForIndex in Hk.
    assert (E : INR j - INR i = IZR (k * Z.of_nat n)).
    { rewrite mult_IZR, <- INR_IZR_INZ.
      apply (Rmult_eq_reg_r (PI * 2 / INR n)).
      - transitivity (IZR k * (2 * PI)); [ rewrite <- Hk; ring | field; exact Hn0 ].
      - pose proof PI_RGT_0 as Hpos. unfold Rdiv.
        apply Rmult_integral_contrapositive_currified;
          [ lra | now apply Rinv_neq_0_compat ]. }
    rewrite !INR_IZR_INZ, <- minus_IZR in E.
    apply eq_IZR in E.
    assert (K : (k = 0 \/ 1 <= k \/ k <= -1)%Z) by lia.
    destruct K as [ -> | [ K | K ] ]; [ lia | exfalso | exfalso ].
    + assert (Z.of_nat n <= k * Z.of_nat n)%Z by nia. lia.
    + assert (k * Z.of_nat n <= - Z.of_nat n)%Z by nia. lia.
Qed.

Lemma angleForIndex_any_total_witness :
  (0 < 8)%nat /\
  same_direction (angleForIndex (INR (3 + 8)) (INR 8))
                 (angleForIndex (INR 3) (INR 8)).
Proof.
  split; [ lia | ].
  exact (proj1 (angleForIndex_any_total 8 3 0 ltac:(lia))).
Defined.

(** ** No two slots share a place *)

Lemma cos_one_small_turn (k : Z) :
  (-1 <= k <= 1)%Z -> cos (IZR k * PI) = 1 -> k = 0%Z.
Proof.
  intros Hk Hc.
  assert (C : (k = -1 \/ k = 0 \/ k = 1)%Z) by lia.
  destruct C as [ -> | [ -> | -> ] ]; [ exfalso | reflexivity | exfalso ].
  - replace (IZR (-1) * PI) with (- PI) in Hc by ring.
    rewrite cos_neg, cos_PI in Hc. lra.
  - replace (IZR 1 * PI) with PI in Hc by ring.
    rewrite cos_PI in Hc. lra.
Qed.

Lemma direction_injective (i j : nat) :
  (i < 12)%nat -> (j < 12)%nat -> direction i = direction j -> i = j.
Proof.
  intros Hi Hj E. unfold direction in E. cbv zeta in E.
  injection E as Ec Es.
  set (a := angleForIndex (INR i) 12) in *.
  set (b := angleForIndex (INR j) 12) in *.
  assert (C : cos (a - b) = 1).
  { rewrite cos_minus, Ec, Es. apply sin_cos_unit. }
  assert (S0 : sin (a - b) = 0).
  { pose proof (sin_cos_unit (a - b)) as U. rewrite C in U.
    assert (S2 : sin (a - b) * sin (a - b) = 0) by lra.
    apply Rmult_integral in S2. now destruct S2. }
  destruct (sin_eq_0_0 _ S0) as [k Hk].
  assert (D : a - b = (INR j - INR i) * (PI / 6))
    by (unfold a, b; apply angle_difference).
  assert (Hpi : PI <> 0) by apply PI_neq0.
  assert (E6 : INR j - INR i = IZR (6 * k)).
  { rewrite mult_IZR.
    apply (Rmult_eq_reg_r (PI / 6)); [ | lra ].
    rewrite <- D, Hk. field. }
  rewrite !INR_IZR_INZ, <- minus_IZR in E6.
  apply eq_IZR in E6.
  assert (K : k = 0%Z).
  { apply cos_one_small_turn; [ lia | ]. now rewrite <- Hk. }
  lia.
Qed.

(** X2. Two decals made for different slots are anchored at different
    points, and two gems made for different slots are centred at different
    points, unless the radius they are placed at is zero. *)
Theorem placements_pairwise_distinct
    (mesh : Mesh) (innerR outerR height size : R) (slots : SlotArray)
    (inside : bool) (markColor : string) :
  (DecalMarks_radius innerR outerR inside <> 0 ->
   forall p p',
     In p (DecalMarks (Some mesh) innerR outerR size slots inside markColor) ->
     In p' (DecalMarks (Some mesh) innerR outerR size slots inside markColor) ->
     decal_key p <> decal_key p' ->
     decal_position p <> decal_position p') /\
  (Gems_radial innerR outerR size inside <> 0 ->
   forall g g',
     In g (Gems innerR outerR height size slots inside) ->
     In g' (Gems innerR outerR height size slots inside) ->
     gem_key g <> gem_key g' ->
     gem_position g <> gem_position g').
Proof.
  assert (Scale : forall r i j, r <> 0 -> (i < 12)%nat -> (j < 12)%nat ->
            THREE.multiplyScalar (direction i) r
            = THREE.multiplyScalar (direction j) r -> i = j).
  { intros r i j Hr Hi Hj E. apply direction_injective; try assumption.
    unfold THREE.multiplyScalar in E. injection E as Ex Ez.
    apply Rmult_eq_reg_r in Ex; [ | exact Hr ].
    apply Rmult_eq_reg_r in Ez; [ | exact Hr ].
    unfold direction. cbv zeta.
    unfold direction in Ex, Ez. cbv zeta in Ex, Ez. three_proj.
    cbn [THREE.x THREE.z] in Ex, Ez. now rewrite Ex, Ez. }
  split.
  - intros Hr p p' Hp Hp' Hk E.
    apply in_for_push in Hp. destruct Hp as (i & Hi & Bi).
    apply in_for_push in Hp'. destruct Hp' as (j & Hj & Bj).
    pose proof (DecalMarks_body_key _ _ _ _ _ _ _ _ _ _ Bi) as Ki.
    pose proof (DecalMarks_body_key _ _ _ _ _ _ _ _ _ _ Bj) as Kj.
    assert (Mi : is_mark (slot_at slots i) = true).
    { rewrite <- DecalMarks_body_produces
        with (mesh := mesh) (innerR := innerR) (outerR := outerR)
             (size := size) (inside := inside) (markColor := markColor)
             (depth := Rmax 0.6 (size * 0.5)).
      unfold produces. now rewrite Bi. }
    assert (Mj : is_mark (slot_at slots j) = true).
    { rewrite <- DecalMarks_body_produces
        with (mesh := mesh) (innerR := innerR) (outerR := outerR)
             (size := size) (inside := inside) (markColor := markColor)
             (depth := Rmax 0.6 (size * 0.5)).
      unfold produces. now rewrite Bj. }
    destruct (slot_at slots i) as [ si | ] eqn:Si; [ | discriminate Mi ].
    destruct (slot_at slots j) as [ sj | ] eqn:Sj; [ | discriminate Mj ].
    destruct (DecalMarks_body_mark mesh innerR outerR size slots inside
                markColor (Rmax 0.6 (size * 0.5)) i si Si Mi)
      as (q & Bq & _ & _ & Pq & _).
    destruct (DecalMarks_body_mark mesh innerR outerR size slots inside
                markColor (Rmax 0.6 (size * 0.5)) j sj Sj Mj)
      as (q' & Bq' & _ & _ & Pq' & _).
    assert (q = p) by congruence. assert (q' = p') by congruence.
    subst q q'. rewrite Pq, Pq' in E.
    apply Hk. rewrite Ki, Kj. exact (Scale _ i j Hr Hi Hj E).
  - intros Hr g g' Hg Hg' Hk E.
    apply in_for_push in Hg. destruct Hg as (i & Hi & Bi).
    apply in_for_push in Hg'. destruct Hg' as (j & Hj & Bj).
    pose proof (Gems_body_key _ _ _ _ _ _ _ _ Bi) as Ki.
    pose proof (Gems_body_key _ _ _ _ _ _ _ _ Bj) as Kj.
    assert (Mi : is_stone (slot_at slots i) = true).
    { rewrite <- Gems_body_produces
        with (innerR := innerR) (outerR := outerR) (height := height)
             (size := size) (inside := inside).
      unfold produces. now rewrite Bi. }
    assert (Mj : is_stone (slot_at slots j) = true).
    { rewrite <- Gems_body_produces
        with (innerR := innerR) (outerR := outerR) (height := height)
             (size := size) (inside := inside).
      unfold produces. now rewrite Bj. }
    destruct (slot_at slots i) as [ [ vi | vi | vi ] | ] eqn:Si;
      try discriminate Mi.
    destruct (slot_at slots j) as [ [ vj | vj | vj ] | ] eqn:Sj;
      try discriminate Mj.
    destruct (Gems_body_stone innerR outerR height size slots inside i vi Si)
      as (q & Bq & _ & Pq & _).
    destruct (Gems_body_stone innerR outerR height size slots inside j vj Sj)
      as (q' & Bq' & _ & Pq' & _).
    assert (q = g) by congruence. assert (q' = g') by congruence.
    subst q q'. rewrite Pq, Pq' in E.
    apply Hk. rewrite Ki, Kj.
    apply (Scale (Gems_radial innerR outerR size inside) i j Hr Hi Hj).
    unfold Gems_position, THREE.toArray in E.
    injection E as Ex Ez. now apply vector3_eq.
Qed.

Lemma placements_pairwise_distinct_witness :
  DecalMarks_radius 9 12 false <> 0 /\
  exists p p',
    In p (DecalMarks (Some sample_mesh) 9 12 2.6 (cells initialSlots)
            false "#3b3b3b") /\
    In p' (DecalMarks (Some sample_mesh) 9 12 2.6 (cells initialSlots)
             false "#3b3b3b") /\
    decal_position p <> decal_position p'.
Proof.
  assert (Hr : DecalMarks_radius 9 12 false <> 0)
    by (unfold DecalMarks_radius; lra).
  split; [ exact Hr | ].
  destruct (DecalMarks_body_mark sample_mesh 9 12 2.6 (cells initialSlots)
              false "#3b3b3b" (Rmax 0.6 (2.6 * 0.5)) 0 _ eq_refl eq_refl)
    as (p & Bp & Kp & _).
  destruct (DecalMarks_body_mark sample_mesh 9 12 2.6 (cells initialSlots)
              false "#3b3b3b" (Rmax 0.6 (2.6 * 0.5)) 1 _ eq_refl eq_refl)
    as (p' & Bp' & Kp' & _).
  assert (Ip : In p (DecalMarks (Some sample_mesh) 9 12 2.6
                       (cells initialSlots) false "#3b3b3b"))
    by (apply in_for_push; exists 0%nat; split; [ lia | exact Bp ]).
  assert (Ip' : In p' (DecalMarks (Some sample_mesh) 9 12 2.6
                         (cells initialSlots) false "#3b3b3b"))
    by (apply in_for_push; exists 1%nat; split; [ lia | exact Bp' ]).
  exists p, p'. split; [ exact Ip | split; [ exact Ip' | ] ].
  apply (proj1 (placements_pairwise_distinct sample_mesh 9 12 2.2 2.6
                  (cells initialSlots) false "#3b3b3b") Hr p p' Ip Ip').
  rewrite Kp, Kp'. discriminate.
Defined.

(** ** What an element of either output looks like *)

Lemma In_DecalMarks_inv (mesh : Mesh) (innerR outerR size : R)
    (slots : SlotArray) (inside : bool) (markColor : string)
    (p : DecalPatch) :
  In p (DecalMarks (Some mesh) innerR outerR size slots inside markColor) ->
  (decal_key p < 12)%nat /\
  is_mark (slot_at slots (decal_key p)) = true /\
  decal_position p
  = THREE.multiplyScalar (direction (decal_key p))
                         (DecalMarks_radius innerR outerR inside) /\
  decal_normal p
  = THREE.multiplyScalar (direction (decal_key p))
                         (if inside then -1 else 1) /\
  decal_size p = THREE.mkVector3 size size (Rmax 0.6 (size * 0.5)).
Proof.
  intros Hp. apply in_for_push in Hp. destruct Hp as (i & Hi & Bi).
  pose proof (DecalMarks_body_key _ _ _ _ _ _ _ _ _ _ Bi) as Ki.
  pose proof (DecalMarks_body_produces mesh innerR outerR size slots inside
                markColor (Rmax 0.6 (size * 0.5)) i) as Pi.
  unfold produces in Pi. rewrite Bi in Pi. symmetry in Pi.
  destruct (slot_at slots i) as [ s | ] eqn:Si; [ | discriminate Pi ].
  destruct (DecalMarks_body_mark mesh innerR outerR size slots inside
              markColor (Rmax 0.6 (size * 0.5)) i s Si Pi)
    as (q & Bq & _ & _ & Pq & Nq & _ & Sq & _).
  assert (q = p) by congruence. subst q.
  rewrite Ki, Si. repeat split; assumption.
Qed.

Lemma In_Gems_inv (innerR outerR height size : R) (slots : SlotArray)
    (inside : bool) (g : GemPlacement) :
  In g (Gems innerR outerR height size slots inside) ->
  (gem_key g < 12)%nat /\
  is_stone (slot_at slots (gem_key g)) = true /\
  gem_position g = Gems_position innerR outerR size inside (gem_key g) /\
  gem_radius g = gemSize_of size /\
  gem_quaternion g
  = THREE.setFromUnitVectors (THREE.mkVector3 0 1 0)
      (THREE.mkVector3
         (if inside then - cos (angleForIndex (INR (gem_key g)) 12)
          else cos (angleForIndex (INR (gem_key g)) 12))
         0
         (if inside then - sin (angleForIndex (INR (gem_key g)) 12)
          else sin (angleForIndex (INR (gem_key g)) 12))) /\
  seat_position g = [0; - gemSize_of size * 0.52; 0] /\
  seat_radius_top g = gemSize_of size * 0.58 /\
  seat_radius_bottom g = gemSize_of size * 0.62 /\
  seat_height g = Rmin 0.5 (height * 0.3) /\
  gem_thickness g = gemSize_of size * 0.9.
Proof.
  intros Hg. apply in_for_push in Hg. destruct Hg as (i & Hi & Bi).
  pose proof (Gems_body_key _ _ _ _ _ _ _ _ Bi) as Ki.
  pose proof (Gems_body_produces innerR outerR height size slots inside i)
    as Pi.
  unfold produces in Pi. rewrite Bi in Pi. symmetry in Pi.
  destruct (slot_at slots i) as [ [ v | v | v ] | ] eqn:Si;
    try discriminate Pi.
  destruct (Gems_body_stone innerR outerR height size slots inside i v Si)
    as (q & Bq & _ & Pq & Rq & _).
  assert (q = g) by congruence. subst q.
  rewrite Ki, Si.
  split; [ exact Hi | ]. split; [ reflexivity | ].
  split; [ exact Pq | ]. split; [ exact Rq | ].
  unfold Gems_body in Bi. rewrite Si in Bi.
  change (negb (String.eqb (kind (Stone v)) "stone")) with false in Bi.
  cbv iota in Bi. injection Bi as <-.
  cbn [gem_quaternion seat_position seat_radius_top seat_radius_bottom
       seat_height gem_thickness].
  rewrite normal_is_signed_direction.
  repeat split.
Qed.

(** ** Where decals sit *)

(** X3. When the band is wider than 0.05, every decal is anchored in the
    plane y = 0, on a circle whose radius lies strictly between the inner and
    the outer radius of the band, in both placements. *)
Theorem decal_anchor_within_band_wall
    (mesh : Mesh) (innerR bandWidth size : R) (slots : SlotArray)
    (inside : bool) (markColor : string) (p : DecalPatch) :
  0.05 < bandWidth ->
  In p (DecalMarks (Some mesh) innerR (innerR + bandWidth) size slots
                   inside markColor) ->
  let r := DecalMarks_radius innerR (innerR + bandWidth) inside in
  innerR < r < innerR + bandWidth /\
  THREE.y (decal_position p) = 0 /\
  THREE.x (decal_position p) * THREE.x (decal_position p)
  + THREE.z (decal_position p) * THREE.z (decal_position p) = r * r.
Proof.
  intros Hw Hp r.
  destruct (In_DecalMarks_inv _ _ _ _ _ _ _ _ Hp) as (_ & _ & Pp & _).
  fold r in Pp. rewrite Pp.
  unfold direction, THREE.multiplyScalar. cbv zeta. three_proj.
  split; [ unfold r, DecalMarks_radius; destruct inside; lra | ].
  split; [ ring | ].
  set (a := angleForIndex (INR (decal_key p)) 12).
  transitivity ((cos a * cos a + sin a * sin a) * (r * r)); [ ring | ].
  rewrite sin_cos_unit. ring.
Qed.

Lemma decal_anchor_within_band_wall_witness :
  0.05 < 3 /\
  exists p,
    In p (DecalMarks (Some sample_mesh) 9 (9 + 3) 2.6 (cells initialSlots)
            true "#3b3b3b") /\
    9 < DecalMarks_radius 9 (9 + 3) true < 9 + 3 /\
    THREE.y (decal_position p) = 0.
Proof.
  split; [ lra | ].
  destruct (DecalMarks_body_mark sample_mesh 9 (9 + 3) 2.6
              (cells initialSlots) true "#3b3b3b" (Rmax 0.6 (2.6 * 0.5))
              0 _ eq_refl eq_refl)
    as (p & Bp & _).
  assert (Ip : In p (DecalMarks (Some sample_mesh) 9 (9 + 3) 2.6
                       (cells initialSlots) true "#3b3b3b"))
    by (apply in_for_push; exists 0%nat; split; [ lia | exact Bp ]).
  exists p. split; [ exact Ip | ].
  destruct (decal_anchor_within_band_wall sample_mesh 9 3 2.6
              (cells initialSlots) true "#3b3b3b" p ltac:(lra) Ip)
    as (H1 & H2 & _).
  split; [ exact H1 | exact H2 ].
Defined.

(** X4. The box a decal is projected through is deeper than any bevel the
    band builder chooses: its depth is at least 0.6 and at least half the mark
    size, while the bevel thickness never exceeds 0.35. *)
Theorem decal_depth_exceeds_bevel
    (mesh : Mesh) (innerR outerR size : R) (slots : SlotArray)
    (inside : bool) (markColor : string) (p : DecalPatch)
    (r w h : R) :
  In p (DecalMarks (Some mesh) innerR outerR size slots inside markColor) ->
  THREE.x (decal_size p) = size /\
  THREE.y (decal_size p) = size /\
  0.6 <= THREE.z (decal_size p) /\
  size * 0.5 <= THREE.z (decal_size p) /\
  bevelThickness (options (Band_geom r w h)) <= 0.35 /\
  bevelThickness (options (Band_geom r w h)) < THREE.z (decal_size p).
Proof.
  intros Hp.
  destruct (In_DecalMarks_inv _ _ _ _ _ _ _ _ Hp) as (_ & _ & _ & _ & Sp).
  rewrite Sp. three_proj. cbn [Band_geom options bevelThickness].
  pose proof (Rmax_l 0.6 (size * 0.5)).
  pose proof (Rmax_r 0.6 (size * 0.5)).
  pose proof (Rmin_l 0.35 (h * 0.22)).
  repeat split; lra.
Qed.

Lemma decal_depth_exceeds_bevel_witness :
  exists p,
    In p (DecalMarks (Some sample_mesh) 9 12 2.6 (cells initialSlots)
            false "#3b3b3b") /\
    bevelThickness (options (Band_geom 9 3 2.2)) < THREE.z (decal_size p).
Proof.
  destruct (DecalMarks_body_mark sample_mesh 9 12 2.6 (cells initialSlots)
              false "#3b3b3b" (Rmax 0.6 (2.6 * 0.5)) 0 _ eq_refl eq_refl)
    as (p & Bp & _).
  assert (Ip : In p (DecalMarks (Some sample_mesh) 9 12 2.6
                       (cells initialSlots) false "#3b3b3b"))
    by (apply in_for_push; exists 0%nat; split; [ lia | exact Bp ]).
  exists p. split; [ exact Ip | ].
  apply (decal_depth_exceeds_bevel sample_mesh 9 12 2.6 (cells initialSlots)
           false "#3b3b3b" p 9 3 2.2 Ip).
Defined.

(** ** Every slot gets one output *)

Lemma filter_split_length {A : Type} (p q r : A -> bool) (l : list A) :
  (forall a, r a = p a || q a) ->
  (forall a, p a && q a = false) ->
  (List.length (filter p l) + List.length (filter q l)
   = List.length (filter r l))%nat.
Proof.
  intros Hr Hd. induction l as [ | a l IH ]; [ reflexivity | ].
  cbn [filter]. rewrite Hr. specialize (Hd a).
  destruct (p a), (q a); cbn [orb List.length] in *;
    try discriminate; lia.
Qed.

Lemma outputs_count
    (mesh : Mesh) (innerR outerR height size : R) (slots : SlotArray)
    (inside : bool) (markColor : string) :
  DecalMarks None innerR outerR size slots inside markColor = [] /\
  (List.length
     (DecalMarks (Some mesh) innerR outerR size slots inside markColor)
   + List.length (Gems innerR outerR height size slots inside)
   = List.length
       (filter (fun i => is_defined (slot_at slots i)) (seq 0 12)))%nat /\
  (List.length
     (DecalMarks (Some mesh) innerR outerR size slots inside markColor)
   + List.length (Gems innerR outerR height size slots inside) <= 12)%nat /\
  (forall typed : list Slot,
     slots = cells typed -> List.length typed = 12%nat ->
     (List.length
        (DecalMarks (Some mesh) innerR outerR size slots inside markColor)
      + List.length (Gems innerR outerR height size slots inside)
      = 12)%nat).
Proof.
  assert (E : (List.length
                 (DecalMarks (Some mesh) innerR outerR size slots inside
                             markColor)
               + List.length (Gems innerR outerR height size slots inside)
               = List.length
                   (filter (fun i => is_defined (slot_at slots i))
                           (seq 0 12)))%nat).
  { rewrite <- (length_map decal_key), <- (length_map gem_key).
    rewrite DecalMarks_keys, Gems_keys.
    apply filter_split_length; intros i;
      destruct (slot_at slots i) as [ [ v | v | v ] | ]; reflexivity. }
  split; [ reflexivity | ].
  split; [ exact E | ].
  split.
  - rewrite E.
    pose proof (filter_length_le (fun i => is_defined (slot_at slots i))
                                 (seq 0 12)) as L.
    rewrite length_seq in L. exact L.
  - intros typed -> Hlen. rewrite E.
    transitivity
      (List.length
         (filter (fun i => is_defined (nth_error typed i))
                 (seq 0 (List.length typed)))).
    + rewrite Hlen. f_equal. apply filter_ext. intros i.
      now rewrite slot_at_cells.
    + rewrite filter_indices_length.
      rewrite <- Hlen. clear.
      induction typed as [ | s l IH ]; [ reflexivity | ].
      cbn [filter is_defined List.length]. now f_equal.
Qed.

(** X5. While the band mesh is not mounted there is no decal. Once it is,
    the numbers of decals and of gems add up to the number of cells holding a
    slot among the first twelve, so never to more than 12, and to exactly 12
    for a well-typed configuration of twelve slots. *)
Theorem outputs_count_defined_slots
    (mesh : Mesh) (innerR outerR height size : R) (slots : SlotArray)
    (inside : bool) (markColor : string) :
  DecalMarks None innerR outerR size slots inside markColor = [] /\
  (List.length
     (DecalMarks (Some mesh) innerR outerR size slots inside markColor)
   + List.length (Gems innerR outerR height size slots inside)
   = List.length
       (filter (fun i => is_defined (slot_at slots i)) (seq 0 12)))%nat /\
  (List.length
     (DecalMarks (Some mesh) innerR outerR size slots inside markColor)
   + List.length (Gems innerR outerR height size slots inside) <= 12)%nat /\
  (forall typed : list Slot,
     slots = cells typed -> List.length typed = 12%nat ->
     (List.length
        (DecalMarks (Some mesh) innerR outerR size slots inside markColor)
      + List.length (Gems innerR outerR height size slots inside)
      = 12)%nat).
Proof. apply outputs_count. Qed.

Lemma outputs_count_defined_slots_witness :
  List.length (Stone "ruby" :: tl initialSlots) = 12%nat /\
  (List.length
     (DecalMarks (Some sample_mesh) 9 12 2.6
                 (cells (Stone "ruby" :: tl initialSlots)) false "#3b3b3b")
   + List.length
       (Gems 9 12 2.2 2.6 (cells (Stone "ruby" :: tl initialSlots)) false)
   = 12)%nat.
Proof.
  split; [ reflexivity | ].
  destruct (outputs_count_defined_slots sample_mesh 9 12 2.2 2.6
              (cells (Stone "ruby" :: tl initialSlots)) false "#3b3b3b")
    as (_ & _ & _ & H).
  exact (H (Stone "ruby" :: tl initialSlots) eq_refl eq_refl).
Defined.

(** ** Gems *)

(** For a horizontal unit normal, [setFromUnitVectors] from the up axis
    (0,1,0) gives a rotation carrying that axis onto the normal; the two are
    at right angles, so the opposite-direction branch is never taken. *)
Lemma up_axis_onto_normal (nx nz : R) :
  nx * nx + nz * nz = 1 ->
  THREE.applyQuaternion (THREE.mkVector3 0 1 0)
    (THREE.setFromUnitVectors (THREE.mkVector3 0 1 0)
                              (THREE.mkVector3 nx 0 nz))
  = THREE.mkVector3 nx 0 nz.
Proof.
  intros Hunit.
  pose proof EPSILON_small as [_ He].
  unfold THREE.setFromUnitVectors, THREE.dot. cbv zeta. three_proj.
  destruct (Rlt_dec (0 * nx + 1 * 0 + 0 * nz + 1) THREE.EPSILON) as [ Hr | _ ];
    [ lra | ].
  set (q := THREE.mkQuaternion _ _ _ _).
  set (l := THREE.qlength q).
  assert (Hl2 : l * l = 2).
  { unfold l, THREE.qlength, q. three_proj.
    rewrite sqrt_sqrt by nra. nra. }
  assert (Hl : l <> 0) by (intros E; rewrite E in Hl2; lra).
  rewrite (qnormalize_scaled q l eq_refl Hl).
  set (k := 1 / l).
  assert (Hk : k * k * 2 = 1).
  { unfold k. rewrite <- Hl2. field. exact Hl. }
  unfold THREE.applyQuaternion, q. cbv zeta. three_proj.
  apply vector3_eq; three_proj.
  - transitivity (nx * (k * k * 2)); [ ring | ]. rewrite Hk. ring.
  - transitivity (1 - (nx * nx + nz * nz) * (k * k * 2)); [ ring | ].
    rewrite Hk, Hunit. ring.
  - transitivity (nz * (k * k * 2)); [ ring | ]. rewrite Hk. ring.
Qed.

(** X6. The orientation of every gem carries the gem's Y axis (0,1,0) onto
    the normal of its slot: the slot direction, turned around for inside
    placement. *)
Theorem Gems_up_axis_follows_normal
    (innerR outerR height size : R) (slots : SlotArray) (inside : bool)
    (g : GemPlacement) :
  In g (Gems innerR outerR height size slots inside) ->
  THREE.applyQuaternion (THREE.mkVector3 0 1 0) (gem_quaternion g)
  = THREE.multiplyScalar (direction (gem_key g)) (if inside then -1 else 1).
Proof.
  intros Hg.
  destruct (In_Gems_inv _ _ _ _ _ _ _ Hg) as (_ & _ & _ & _ & Q & _).
  rewrite Q, up_axis_onto_normal.
  - unfold direction, THREE.multiplyScalar. cbv zeta.
    apply vector3_eq; three_proj; destruct inside; ring.
  - pose proof (sin_cos_unit (angleForIndex (INR (gem_key g)) 12)).
    destruct inside; lra.
Qed.

Lemma Gems_up_axis_follows_normal_witness :
  exists g,
    In g (Gems 9 12 2.2 2.6 [Some (Stone "ruby")] true) /\
    THREE.applyQuaternion (THREE.mkVector3 0 1 0) (gem_quaternion g)
    = THREE.multiplyScalar (direction (gem_key g)) (-1).
Proof.
  destruct (Gems_body_stone 9 12 2.2 2.6 [Some (Stone "ruby")] true 0 "ruby"
              eq_refl) as (g & Bg & _).
  assert (Ig : In g (Gems 9 12 2.2 2.6 [Some (Stone "ruby")] true))
    by (apply in_for_push; exists 0%nat; split; [ lia | exact Bg ]).
  exists g. split; [ exact Ig | ].
  exact (Gems_up_axis_follows_normal 9 12 2.2 2.6 [Some (Stone "ruby")] true
           g Ig).
Defined.

(** X7. In outside placement every gem is centred on the ray of its slot,
    at distance outer radius + 0.6 times the gem's radius from the axis, the
    gem's radius being max(0.8, 0.55 times the mark size); that is at least
    the outer radius + 0.48. Against the outer radius grown by the bevel size
    of a band of width w, the centre is at or beyond it when w is at most 4
    or the gem's radius is at least 1, and otherwise falls short of it by at
    most 0.12. *)
Theorem Gems_outside_centre
    (innerR outerR height size : R) (slots : SlotArray) (g : GemPlacement)
    (r w h : R) :
  In g (Gems innerR outerR height size slots false) ->
  let d := outerR + 0.6 * gem_radius g in
  let bevelled := outerR + bevelSize (options (Band_geom r w h)) in
  gem_position g
  = THREE.toArray (THREE.multiplyScalar (direction (gem_key g)) d) /\
  gem_radius g = Rmax 0.8 (size * 0.55) /\
  outerR + 0.48 <= d /\
  bevelled - 0.12 <= d /\
  (w <= 4 -> bevelled <= d) /\
  (1 <= gem_radius g -> bevelled <= d) /\
  (5 <= w -> gem_radius g < 1 -> d < bevelled).
Proof.
  intros Hg d bevelled.
  destruct (In_Gems_inv _ _ _ _ _ _ _ Hg) as (_ & _ & P & Rg & _).
  unfold d, bevelled. rewrite P, Rg.
  unfold Gems_position, Gems_radial, gemSize_of.
  cbn [Band_geom options bevelSize].
  pose proof (Rmax_l 0.8 (size * 0.55)) as M.
  pose proof (Rmin_l 0.6 (w * 0.12)) as B1.
  pose proof (Rmin_r 0.6 (w * 0.12)) as B2.
  split; [ reflexivity | ]. split; [ reflexivity | ].
  split; [ lra | ]. split; [ lra | ].
  split; [ intros Hw; lra | ].
  split; [ intros H1; lra | ].
  intros Hw H1. rewrite (Rmin_left 0.6 (w * 0.12)) by lra. lra.
Qed.

Lemma Gems_outside_centre_witness :
  exists g,
    In g (Gems 9 12 2.2 2.6 [Some (Stone "ruby")] false) /\
    gem_radius g = Rmax 0.8 (2.6 * 0.55) /\
    12 + bevelSize (options (Band_geom 9 3 2.2))
    <= 12 + 0.6 * gem_radius g.
Proof.
  destruct (Gems_body_stone 9 12 2.2 2.6 [Some (Stone "ruby")] false 0 "ruby"
              eq_refl) as (g & Bg & _).
  assert (Ig : In g (Gems 9 12 2.2 2.6 [Some (Stone "ruby")] false))
    by (apply in_for_push; exists 0%nat; split; [ lia | exact Bg ]).
  exists g. split; [ exact Ig | ].
  destruct (Gems_outside_centre 9 12 2.2 2.6 [Some (Stone "ruby")] g
              9 3 2.2 Ig)
    as (_ & Hr & _ & _ & Hw & _).
  split; [ exact Hr | apply Hw; lra ].
Defined.

(** X8. Whatever the mark size and the band height, a gem has radius
    max(0.8, 0.55 times the mark size): exactly 0.8 while 0.55 times the mark
    size is at most 0.8, and exactly 0.55 times the mark size once that is
    larger. Its seat sits under the gem's centre, is narrower than the gem at
    both ends, widens downwards, and is at most 0.5 high and at most 0.3 times
    the band height. *)
Theorem Gems_scale_and_seat
    (innerR outerR height size : R) (slots : SlotArray) (inside : bool)
    (g : GemPlacement) :
  In g (Gems innerR outerR height size slots inside) ->
  gem_radius g = Rmax 0.8 (size * 0.55) /\
  (size * 0.55 <= 0.8 -> gem_radius g = 0.8) /\
  0.8 <= gem_radius g /\
  size * 0.55 <= gem_radius g /\
  (0.8 <= size * 0.55 -> gem_radius g = size * 0.55) /\
  seat_position g = [0; - (0.52 * gem_radius g); 0] /\
  0 < seat_radius_top g < seat_radius_bottom g /\
  seat_radius_bottom g < gem_radius g /\
  seat_height g <= 0.5 /\
  seat_height g <= 0.3 * height.
Proof.
  intros Hg.
  destruct (In_Gems_inv _ _ _ _ _ _ _ Hg)
    as (_ & _ & _ & Rg & _ & Sp & St & Sb & Sh & _).
  rewrite Rg, Sp, St, Sb, Sh.
  pose proof (Rmax_l 0.8 (size * 0.55)) as M1.
  pose proof (Rmax_r 0.8 (size * 0.55)) as M2.
  pose proof (Rmin_l 0.5 (height * 0.3)).
  pose proof (Rmin_r 0.5 (height * 0.3)).
  fold (gemSize_of size) in M1, M2.
  split; [ reflexivity | ].
  split; [ intros Hs; unfold gemSize_of; now apply Rmax_left | ].
  split; [ exact M1 | ]. split; [ exact M2 | ].
  split; [ intros Hs; unfold gemSize_of; now apply Rmax_right | ].
  split; [ repeat (f_equal; try ring) | ].
  repeat split; lra.
Qed.

Lemma Gems_scale_and_seat_witness :
  exists g,
    In g (Gems 9 12 2.2 2.6 [Some (Stone "ruby")] false) /\
    seat_height g <= 0.5.
Proof.
  destruct (Gems_body_stone 9 12 2.2 2.6 [Some (Stone "ruby")] false 0 "ruby"
              eq_refl) as (g & Bg & _).
  assert (Ig : In g (Gems 9 12 2.2 2.6 [Some (Stone "ruby")] false))
    by (apply in_for_push; exists 0%nat; split; [ lia | exact Bg ]).
  exists g. split; [ exact Ig | ].
  destruct (Gems_scale_and_seat 9 12 2.2 2.6 [Some (Stone "ruby")] false g Ig)
    as (_ & _ & _ & _ & _ & _ & _ & _ & H & _).
  exact H.
Defined.

(** ** Catalogue lookups *)

Lemma find_known_stone (st : StoneEntry) :
  In st STONES ->
  find (fun st' => String.eqb (st_key st') (st_key st)) STONES = Some st.
Proof.
  intros H. cbn [STONES In] in H.
  repeat (destruct H as [ <- | H ]; [ reflexivity | ]). contradiction.
Qed.

Lemma find_known_sign (z : ZodiacEntry) :
  In z ZODIAC ->
  find (fun z' => String.eqb (z_key z') (z_key z)) ZODIAC = Some z.
Proof.
  intros H. cbn [ZODIAC In] in H.
  repeat (destruct H as [ <- | H ]; [ reflexivity | ]). contradiction.
Qed.

Lemma stone_ior_range (st : StoneEntry) :
  In st STONES -> exists v, st_ior st = Some v /\ 1.54 <= v <= 2.4.
Proof.
  intros H. cbn [STONES In] in H.
  repeat (destruct H as [ <- | H ];
          [ eexists; split; [ reflexivity | lra ] | ]).
  contradiction.
Qed.

(** X9. A stone slot whose key is in the catalogue gets a gem with the
    colour and the index of refraction of that very entry; the index of
    refraction is then between 1.54 and 2.4, the default 1.6 being used for no
    catalogue entry. *)
Theorem Gems_known_stone_material
    (innerR outerR height size : R) (slots : SlotArray) (inside : bool)
    (i : nat) (st : StoneEntry) :
  (i < 12)%nat ->
  In st STONES ->
  slot_at slots i = Some (Stone (st_key st)) ->
  exists g,
    In g (Gems innerR outerR height size slots inside) /\
    gem_key g = i /\
    gem_color g = st_hex st /\
    st_ior st = Some (gem_ior g) /\
    1.54 <= gem_ior g <= 2.4.
Proof.
  intros Hi Hst Hs.
  destruct (Gems_body_stone innerR outerR height size slots inside i _ Hs)
    as (g & Bg & Kg & _ & _ & Hfound & _).
  destruct (Hfound st (find_known_stone st Hst)) as [Hc Hior].
  exists g.
  split; [ apply in_for_push; exists i; split; [ exact Hi | exact Bg ] | ].
  split; [ exact Kg | ]. split; [ exact Hc | ].
  split; [ now symmetry | ].
  destruct (stone_ior_range st Hst) as (v & Hv & Hrange).
  rewrite Hv in Hior. injection Hior as ->. exact Hrange.
Qed.

Lemma Gems_known_stone_material_witness :
  exists g,
    In g (Gems 9 12 2.2 2.6
               [None; None; None; Some (Stone "ruby")] false) /\
    gem_key g = 3%nat /\
    gem_color g = "#E0115F"%string.
Proof.
  destruct (Gems_known_stone_material 9 12 2.2 2.6
              [None; None; None; Some (Stone "ruby")] false 3
              (mkStone "ruby" "Ruby" "#E0115F" (Some 1.77))
              ltac:(lia) ltac:(cbn; tauto) eq_refl)
    as (g & Ig & Kg & Cg & _).
  exists g. split; [ exact Ig | split; [ exact Kg | exact Cg ] ].
Defined.

Lemma glyph_determines_sign (z z' : ZodiacEntry) :
  In z ZODIAC -> In z' ZODIAC -> z_glyph z = z_glyph z' -> z = z'.
Proof.
  intros H H' E. cbn [ZODIAC In] in H, H'.
  repeat (destruct H as [ <- | H ]; [ | ]); try contradiction;
    repeat (destruct H' as [ <- | H' ]; [ | ]); try contradiction;
    first [ reflexivity | discriminate E ].
Qed.

(** X10. A zodiac slot whose key is one of the twelve signs gets a decal
    drawn with the glyph of that very sign, never with the placeholder, and
    different signs are drawn with different glyphs. *)
Theorem DecalMarks_known_sign_glyph
    (mesh : Mesh) (innerR outerR size : R) (slots : SlotArray)
    (inside : bool) (markColor : string) (i : nat) (z : ZodiacEntry) :
  (i < 12)%nat ->
  In z ZODIAC ->
  slot_at slots i = Some (Zodiac (z_key z)) ->
  (exists p,
     In p (DecalMarks (Some mesh) innerR outerR size slots inside markColor) /\
     decal_key p = i /\
     fillText_text (decal_map p) = z_glyph z /\
     fillStyle (decal_map p) = markColor) /\
  z_glyph z <> "?"%string /\
  (forall z', In z' ZODIAC ->
     fillText_text (makeZodiacTexture (Some (z_key z')) markColor)
     = fillText_text (makeZodiacTexture (Some (z_key z)) markColor) ->
     z' = z).
Proof.
  intros Hi Hz Hs.
  assert (G : forall y c, In y ZODIAC ->
            fillText_text (makeZodiacTexture (Some (z_key y)) c) = z_glyph y).
  { intros y c Hy. unfold makeZodiacTexture. cbv zeta. cbn [fillText_text].
    change (fun z0 => key_is (z_key z0) (Some (z_key y)))
      with (fun z0 => String.eqb (z_key z0) (z_key y)).
    now rewrite (find_known_sign y Hy). }
  split; [ | split ].
  - destruct (DecalMarks_body_mark mesh innerR outerR size slots inside
                markColor (Rmax 0.6 (size * 0.5)) i _ Hs eq_refl)
      as (p & Bp & Kp & _ & _ & _ & _ & _ & Mp).
    exists p.
    split; [ apply in_for_push; exists i; split; [ exact Hi | exact Bp ] | ].
    split; [ exact Kp | ].
    rewrite Mp. split; [ now apply G | reflexivity ].
  - cbn [ZODIAC In] in Hz.
    repeat (destruct Hz as [ <- | Hz ]; [ discriminate | ]). contradiction.
  - intros z' Hz' E. rewrite !G in E by assumption.
    now apply glyph_determines_sign.
Qed.

Lemma DecalMarks_known_sign_glyph_witness :
  exists p,
    In p (DecalMarks (Some sample_mesh) 9 12 2.6 (cells initialSlots)
            false "#3b3b3b") /\
    decal_key p = 4%nat /\
    fillText_text (decal_map p) = "♌"%string.
Proof.
  destruct (DecalMarks_known_sign_glyph sample_mesh 9 12 2.6
              (cells initialSlots) false "#3b3b3b" 4
              (mkZodiac "leo" "♌" "Leo")
              ltac:(lia) ltac:(cbn; tauto) eq_refl)
    as ((p & Ip & Kp & Tp & _) & _).
  exists p. split; [ exact Ip | split; [ exact Kp | exact Tp ] ].
Defined.

(** ** What the three badges mean *)

Lemma existsb_key_iff {A : Type} (k : A -> string) (l : list A)
    (key : string) :
  existsb (fun a => key_is (k a) (Some key)) l = true <-> In key (map k l).
Proof.
  rewrite existsb_exists, in_map_iff. cbn [key_is].
  split; intros (a & H1 & H2).
  - exists a. split; [ now apply String.eqb_eq | exact H1 ].
  - exists a. split; [ exact H2 | now apply String.eqb_eq ].
Qed.

Lemma tests_reflect
    (slots : list Slot) (innerDiameter bandWidth bandHeight : R) :
  let t := tests slots innerDiameter bandWidth bandHeight in
  (twelveSlots t = true <-> List.length slots = 12%nat) /\
  (geometryValid t = true
   <-> bandWidth > 0 /\ innerDiameter > 0 /\ bandHeight > 0) /\
  (slotsValid t = true <-> Forall slot_ok slots).
Proof.
  intros t. unfold t, tests. cbn [twelveSlots geometryValid slotsValid].
  split; [ apply Nat.eqb_eq | ]. split.
  - rewrite !andb_true_iff. unfold Rgtb.
    destruct (Rgt_dec (innerDiameter / 2 + bandWidth) (innerDiameter / 2));
      destruct (Rgt_dec innerDiameter 0); destruct (Rgt_dec bandHeight 0);
      split; intros H; try (repeat split; first [ reflexivity | lra ]);
      try (exfalso; destruct H as [[H1 H2] H3]; discriminate);
      try (exfalso; lra).
  - rewrite forallb_forall, Forall_forall.
    split; intros H s Hs; specialize (H s Hs);
      destruct s as [ v | v | v ]; cbn [kind slot_value slot_ok] in *.
    + apply (existsb_key_iff z_key ZODIAC v).
      change (String.eqb "zodiac" "zodiac") with true in H.
      change (String.eqb "zodiac" "stone") with false in H.
      change (String.eqb "zodiac" "text") with false in H.
      cbn [andb orb] in H. rewrite ?orb_false_r in H. exact H.
    + apply (existsb_key_iff st_key STONES v).
      change (String.eqb "stone" "zodiac") with false in H.
      change (String.eqb "stone" "stone") with true in H.
      change (String.eqb "stone" "text") with false in H.
      cbn [andb orb] in H. rewrite ?orb_false_r in H. exact H.
    + exact I.
    + apply (existsb_key_iff z_key ZODIAC v) in H.
      change (String.eqb "zodiac" "zodiac") with true.
      cbn [andb]. rewrite H. reflexivity.
    + apply (existsb_key_iff st_key STONES v) in H.
      change (String.eqb "stone" "zodiac") with false.
      change (String.eqb "stone" "stone") with true.
      cbn [andb orb]. rewrite H. reflexivity.
    + reflexivity.
Qed.

(** X11. Each check of the diagnostics is true exactly when its condition
    holds: twelveSlots when there are 12 slots; geometryValid when band
    width, inner diameter and band height are all positive; slotsValid when
    every zodiac slot holds one of the twelve sign keys and every stone slot
    a key of the stone catalogue, text slots being free. *)
Theorem tests_meaning
    (slots : list Slot) (innerDiameter bandWidth bandHeight : R) :
  let t := tests slots innerDiameter bandWidth bandHeight in
  (twelveSlots t = true <-> List.length slots = 12%nat) /\
  (geometryValid t = true
   <-> bandWidth > 0 /\ innerDiameter > 0 /\ bandHeight > 0) /\
  (slotsValid t = true <-> Forall slot_ok slots).
Proof. apply tests_reflect. Qed.

Lemma tests_meaning_witness :
  geometryValid (tests initialSlots 18 3 2.2) = true /\
  slotsValid (tests initialSlots 18 3 2.2) = true.
Proof.
  destruct (tests_meaning initialSlots 18 3 2.2) as (_ & G & S).
  split.
  - apply (proj2 G). lra.
  - apply (proj2 S). unfold initialSlots. cbn [map seq].
    repeat (constructor; [ cbn; tauto | ]). constructor.
Defined.

(** ** The bevel of the band *)

(** X12. The bevel thickness is 0.22 times the band height up to height
    35/22 and 0.35 from there on; the bevel size is 0.12 times the band width
    up to width 5 and 0.6 from there on. For a positive height the top and
    bottom bevels together take less than the height, and for a positive
    width twice the bevel size is less than the width. *)
Theorem Band_bevel_values (innerR bandWidth bandHeight : R) :
  let o := options (Band_geom innerR bandWidth bandHeight) in
  (bandHeight <= 35 / 22 -> bevelThickness o = 0.22 * bandHeight) /\
  (35 / 22 <= bandHeight -> bevelThickness o = 0.35) /\
  (bandWidth <= 5 -> bevelSize o = 0.12 * bandWidth) /\
  (5 <= bandWidth -> bevelSize o = 0.6) /\
  (0 < bandHeight -> 2 * bevelThickness o < depth o) /\
  (0 < bandWidth -> 2 * bevelSize o < bandWidth).
Proof.
  cbv zeta. cbn [Band_geom options bevelThickness bevelSize depth].
  repeat split; intros H; unfold Rmin; destruct (Rle_dec _ _); lra.
Qed.

Lemma Band_bevel_values_witness :
  35 / 22 <= 2.2 /\
  bevelThickness (options (Band_geom 9 3 2.2)) = 0.35 /\
  bevelSize (options (Band_geom 9 3 2.2)) = 0.12 * 3.
Proof.
  destruct (Band_bevel_values 9 3 2.2) as (_ & H2 & H3 & _).
  split; [ lra | ].
  split; [ apply H2; lra | apply H3; lra ].
Defined.

(** ** Editing a slot *)

Lemma nth_error_map_from {A B : Type} (f : A -> nat -> B) (l : list A)
    (k i : nat) :
  nth_error (map_from f k l) i
  = option_map (fun a => f a (k + i)%nat) (nth_error l i).
Proof.
  revert k i. induction l as [ | a l IH ]; intros k i.
  - now destruct i.
  - destruct i as [ | i ]; cbn [map_from nth_error option_map].
    + now rewrite Nat.add_0_r.
    + rewrite IH. now rewrite Nat.add_succ_r.
Qed.

Lemma length_map_from {A B : Type} (f : A -> nat -> B) (l : list A) (k : nat) :
  List.length (map_from f k l) = List.length l.
Proof.
  revert k. induction l as [ | a l IH ]; intros k; cbn; [ | rewrite IH ];
    reflexivity.
Qed.

Lemma nth_error_updateSlot (idx : nat) (patch : Patch) (prev : list Slot)
    (i : nat) :
  nth_error (updateSlot idx patch prev) i
  = if Nat.eqb i idx
    then option_map (fun s => merge s patch) (nth_error prev i)
    else nth_error prev i.
Proof.
  unfold updateSlot. rewrite nth_error_map_from. cbn [Nat.add].
  destruct (Nat.eqb i idx); [ reflexivity | ].
  now destruct (nth_error prev i).
Qed.

Lemma list_eq_nth_error {A : Type} (l l' : list A) :
  (forall i, nth_error l i = nth_error l' i) -> l = l'.
Proof.
  revert l'. induction l as [ | a l IH ]; intros [ | a' l' ] H.
  - reflexivity.
  - discriminate (H 0%nat).
  - discriminate (H 0%nat).
  - f_equal.
    + specialize (H 0%nat). now injection H.
    + apply IH. intros i. exact (H (S i)).
Qed.

(** X13. [updateSlot] keeps the number of slots, rewrites the slot at the
    given index by merging the patch into it, leaves every other slot as it
    was, and changes nothing at all when the index is past the end. *)
Theorem updateSlot_touches_one_slot
    (idx : nat) (patch : Patch) (prev : list Slot) :
  List.length (updateSlot idx patch prev) = List.length prev /\
  nth_error (updateSlot idx patch prev) idx
  = option_map (fun s => merge s patch) (nth_error prev idx) /\
  (forall i, i <> idx ->
     nth_error (updateSlot idx patch prev) i = nth_error prev i) /\
  ((List.length prev <= idx)%nat -> updateSlot idx patch prev = prev).
Proof.
  split; [ apply length_map_from | ].
  split; [ rewrite nth_error_updateSlot; now rewrite Nat.eqb_refl | ].
  split.
  - intros i Hi. rewrite nth_error_updateSlot.
    destruct (Nat.eqb_spec i idx); [ contradiction | reflexivity ].
  - intros Hlen. apply list_eq_nth_error. intros i.
    rewrite nth_error_updateSlot.
    destruct (Nat.eqb_spec i idx) as [ -> | _ ]; [ | reflexivity ].
    assert (N : nth_error prev idx = None) by now apply nth_error_None.
    now rewrite N.
Qed.

Lemma updateSlot_touches_one_slot_witness :
  (12 <= 12)%nat /\
  updateSlot 12 (PatchValue "leo") initialSlots = initialSlots /\
  nth_error (updateSlot 2 (PatchValue "leo") initialSlots) 3
  = Some (Zodiac "cancer").
Proof.
  destruct (updateSlot_touches_one_slot 12 (PatchValue "leo") initialSlots)
    as (_ & _ & _ & H).
  destruct (updateSlot_touches_one_slot 2 (PatchValue "leo") initialSlots)
    as (_ & _ & H' & _).
  split; [ lia | ].
  split; [ apply H; cbn; lia | ].
  rewrite H' by lia. reflexivity.
Defined.

(** X14. Edits compose as the last one says. Choosing a kind for a slot sets
    it to that kind's default (aries, diamond or the text AB) and forgets
    what the slot held, so choosing a kind after any other edit of the same
    slot gives the same as choosing it directly; a second value replaces the
    first; and edits of two different slots can be made in either order. *)
Theorem updateSlot_composition
    (i j : nat) (k : Kind) (p q : Patch) (v v' : string)
    (prev : list Slot) :
  updateSlot i (kind_patch k) (updateSlot i q prev)
  = updateSlot i (kind_patch k) prev /\
  updateSlot i (PatchValue v) (updateSlot i (PatchValue v') prev)
  = updateSlot i (PatchValue v) prev /\
  (i <> j ->
   updateSlot i p (updateSlot j q prev)
   = updateSlot j q (updateSlot i p prev)) /\
  ((i < List.length prev)%nat ->
   nth_error (updateSlot i (kind_patch k) prev) i
   = Some match k with
          | KZodiac => Zodiac "aries"
          | KStone => Stone "diamond"
          | KText => Text (Some "AB"%string)
          end).
Proof.
  split; [ | split; [ | split ] ].
  - apply list_eq_nth_error. intros n. rewrite !nth_error_updateSlot.
    destruct (Nat.eqb n i); [ | reflexivity ].
    destruct (nth_error prev n) as [ s | ]; [ | reflexivity ].
    cbn [option_map]. now destruct k.
  - apply list_eq_nth_error. intros n. rewrite !nth_error_updateSlot.
    destruct (Nat.eqb n i); [ | reflexivity ].
    destruct (nth_error prev n) as [ [ u | u | u ] | ]; reflexivity.
  - intros Hij. apply list_eq_nth_error. intros n.
    rewrite !nth_error_updateSlot.
    destruct (Nat.eqb_spec n i) as [ -> | Hn ];
      destruct (Nat.eqb_spec i j) as [ E | _ ]; try contradiction;
      reflexivity.
  - intros Hi. rewrite nth_error_updateSlot, Nat.eqb_refl.
    destruct (nth_error prev i) as [ s | ] eqn:E.
    + cbn [option_map]. now destruct k.
    + apply nth_error_None in E. lia.
Qed.

Lemma updateSlot_composition_witness :
  (0 <> 1)%nat /\
  updateSlot 0 (kind_patch KStone)
             (updateSlot 1 (PatchValue "leo") initialSlots)
  = updateSlot 1 (PatchValue "leo")
               (updateSlot 0 (kind_patch KStone) initialSlots) /\
  nth_error (updateSlot 0 (kind_patch KStone) initialSlots) 0
  = Some (Stone "diamond").
Proof.
  destruct (updateSlot_composition 0 1 KStone (kind_patch KStone)
              (PatchValue "leo") "" "" initialSlots)
    as (_ & _ & H3 & H4).
  split; [ lia | ].
  split; [ apply H3; lia | apply H4; cbn; lia ].
Defined.


(** ** States the control panel can reach *)

Lemma Forall_updateSlot (P : Slot -> Prop) (idx : nat) (patch : Patch)
    (prev : list Slot) :
  Forall P prev ->
  (forall s, nth_error prev idx = Some s -> P (merge s patch)) ->
  Forall P (updateSlot idx patch prev).
Proof.
  intros Hall Hnew. apply Forall_forall. intros s' Hin.
  apply In_nth_error in Hin. destruct Hin as [n Hn].
  rewrite nth_error_updateSlot in Hn.
  destruct (Nat.eqb_spec n idx) as [ En | _ ].
  - rewrite En in Hn.
    destruct (nth_error prev idx) as [ s | ] eqn:E; [ | discriminate Hn ].
    cbn [option_map] in Hn. injection Hn as <-. now apply Hnew.
  - apply nth_error_In in Hn.
    exact (proj1 (Forall_forall P prev) Hall s' Hn).
Qed.

Lemma initialSlots_ok : Forall slot_ok initialSlots.
Proof.
  unfold initialSlots. cbn [map seq].
  repeat (constructor; [ cbn; tauto | ]). constructor.
Qed.

(** What every reachable state satisfies. *)
Lemma reachable_invariant (st : UI.State) :
  UI.reachable st ->
  List.length (UI.slots st) = 12%nat /\
  Forall slot_ok (UI.slots st) /\
  14 <= UI.innerDiameter st <= 24 /\
  1.8 <= UI.bandWidth st <= 6 /\
  1.2 <= UI.bandHeight st <= 3.5 /\
  1 <= UI.markSize st <= 6.
Proof.
  induction 1 as [ | e st Hreach IH Hoff ].
  - split; [ reflexivity | ]. split; [ exact initialSlots_ok | ].
    cbn. repeat split; lra.
  - destruct IH as (Hlen & Hok & Hd & Hw & Hh & Hm).
    destruct e; cbn [UI.handle UI.offered UI.slots UI.innerDiameter
                     UI.bandWidth UI.bandHeight UI.markSize] in *;
      try (repeat split; first [ assumption | lra ]).
    + (* kind selector *)
      split; [ unfold updateSlot; now rewrite length_map_from | ].
      split; [ | repeat split; lra ].
      apply Forall_updateSlot; [ exact Hok | ].
      intros s _. destruct k; cbn; tauto.
    + (* sign selector *)
      destruct Hoff as [[cur Hcur] Hkey].
      split; [ unfold updateSlot; now rewrite length_map_from | ].
      split; [ | repeat split; lra ].
      apply Forall_updateSlot; [ exact Hok | ].
      intros s Hs. rewrite Hcur in Hs. injection Hs as <-. exact Hkey.
    + (* stone selector *)
      destruct Hoff as [[cur Hcur] Hkey].
      split; [ unfold updateSlot; now rewrite length_map_from | ].
      split; [ | repeat split; lra ].
      apply Forall_updateSlot; [ exact Hok | ].
      intros s Hs. rewrite Hcur in Hs. injection Hs as <-. exact Hkey.
    + (* text field *)
      destruct Hoff as [cur Hcur].
      split; [ unfold updateSlot; now rewrite length_map_from | ].
      split; [ | repeat split; lra ].
      apply Forall_updateSlot; [ exact Hok | ].
      intros s Hs. rewrite Hcur in Hs. injection Hs as <-. exact I.
Qed.

(** X15. In every state the control panel can reach from the initial one
    (sliders within their ranges, selectors offering the catalogue keys), the
    three diagnostics are all true, and once the band mesh is mounted the
    twelve slots give exactly twelve outputs, decals and gems together. *)
Theorem reachable_states_pass_diagnostics (st : UI.State) :
  UI.reachable st ->
  twelveSlots (UI.diagnostics st) = true /\
  geometryValid (UI.diagnostics st) = true /\
  slotsValid (UI.diagnostics st) = true /\
  (forall mesh,
     (List.length (UI.decals (Some mesh) st) + List.length (UI.gems st)
      = 12)%nat).
Proof.
  intros Hreach.
  destruct (reachable_invariant st Hreach) as (Hlen & Hok & Hd & Hw & Hh & _).
  destruct (tests_reflect (UI.slots st) (UI.innerDiameter st)
              (UI.bandWidth st) (UI.bandHeight st)) as (T & G & S).
  unfold UI.diagnostics.
  split; [ now apply T | ].
  split; [ apply G; repeat split; lra | ].
  split; [ now apply S | ].
  intros mesh. unfold UI.decals, UI.gems.
  destruct (outputs_count mesh (UI.innerR st) (UI.outerR st)
              (UI.bandHeight st) (UI.markSize st) (cells (UI.slots st))
              (UI.inside st) (UI.markColor st)) as (_ & _ & _ & H).
  exact (H (UI.slots st) eq_refl Hlen).
Qed.

Lemma reachable_states_pass_diagnostics_witness :
  UI.reachable
    (UI.handle (UI.StoneSelected 0 "ruby")
       (UI.handle (UI.KindSelected 0 KStone)
          (UI.handle (UI.BandWidthMoved 1.8) UI.initial))) /\
  slotsValid
    (UI.diagnostics
       (UI.handle (UI.StoneSelected 0 "ruby")
          (UI.handle (UI.KindSelected 0 KStone)
             (UI.handle (UI.BandWidthMoved 1.8) UI.initial)))) = true.
Proof.
  assert (R3 : UI.reachable
                 (UI.handle (UI.StoneSelected 0 "ruby")
                    (UI.handle (UI.KindSelected 0 KStone)
                       (UI.handle (UI.BandWidthMoved 1.8) UI.initial)))).
  { apply UI.reachable_step.
    - apply UI.reachable_step.
      + apply UI.reachable_step; [ apply UI.reachable_initial | cbn; lra ].
      + cbn. lia.
    - cbn. split; [ eexists; reflexivity | tauto ]. }
  split; [ exact R3 | ].
  exact (proj1 (proj2 (proj2 (reachable_states_pass_diagnostics _ R3)))).
Defined.
